(** * positional-tokenizer: a shallow embedding and its properties

    The repository holds two listings of the tokenizer:
    - [src/src/index.ts]: classes [Token], [Rule] and [Tokenizer] with the
      rule builders [captureMono] and [captureGroup];
    - the listing that follows the manual in [src/README.md]: classes [Token],
      [TokenizerBakedRule] and [Tokenizer] with the rule builders [ruleMono]
      and [ruleMulti], the ones the test-suite calls.
    Module [Index] embeds the first, module [Readme] the second; what the two
    listings share word for word ([Token], the string gate, the inner
    [while] loop) is embedded once. *)

From Stdlib Require Import List Arith Lia Bool NArith ZArith String Ascii.
Import ListNotations.

Local Open Scope string_scope.
Local Close Scope list_scope.
Local Open Scope list_scope.
Local Open Scope nat_scope.

(** ** JavaScript values *)

(** A string is a sequence of UTF-16 code units; [text[k]] is the one-unit
    string at index [k] and [text.length] the number of units.  [js] reads
    an ASCII literal as such a sequence. *)
Definition CodeUnit := N.
Definition JsString := list CodeUnit.

Definition js (s : string) : JsString :=
  map N_of_ascii (list_ascii_of_string s).

(** The values the test-suite hands to [tokenize]: [undefined], [null],
    numbers, plain objects, primitive strings, and [String] wrapper objects. *)
Inductive JsValue :=
| JsUndefined
| JsNull
| JsBoolean (b : bool)
| JsNumber (n : Z)
| JsObject
| JsStr (s : JsString)
| JsStringObject (s : JsString).

(** What JavaScript throws. *)
Inductive Thrown :=
| Error (message : string)
| SyntaxError
| TypeError.

(** A [RegExp] is only ever used through [regex.test(char)] on a one-unit
    string.  [toRegex] compiles with the flag [u] alone and the manual builds
    its own with [new RegExp(source)]: without the flags [g] and [y],
    [test] neither reads nor writes [lastIndex], so it is a function of the
    unit it is given.  A [RegExp] with one of these flags is not of this
    kind; module [Live] below has them. *)
Record RegExp := { test : CodeUnit -> bool }.

(** ** Unicode property escapes *)

Inductive GeneralCategory :=
| Lu | Ll | Lt | Lm | Lo
| Mn | Mc | Me
| Nd | Nl | No
| Pc | Pd | Ps | Pe | Pi | Pf | Po
| Sm | Sc | Sk | So
| Zs | Zl | Zp
| Cc | Cf | Cs | Co | Cn.

(** The Unicode character database is not part of the repository: the
    General_Category of a code unit is a parameter. *)
Class Unicode := { generalCategory : CodeUnit -> GeneralCategory }.

Definition shortName (gc : GeneralCategory) : string :=
  match gc with
  | Lu => "Lu" | Ll => "Ll" | Lt => "Lt" | Lm => "Lm" | Lo => "Lo"
  | Mn => "Mn" | Mc => "Mc" | Me => "Me"
  | Nd => "Nd" | Nl => "Nl" | No => "No"
  | Pc => "Pc" | Pd => "Pd" | Ps => "Ps" | Pe => "Pe" | Pi => "Pi"
  | Pf => "Pf" | Po => "Po"
  | Sm => "Sm" | Sc => "Sc" | Sk => "Sk" | So => "So"
  | Zs => "Zs" | Zl => "Zl" | Zp => "Zp"
  | Cc => "Cc" | Cf => "Cf" | Cs => "Cs" | Co => "Co" | Cn => "Cn"
  end%string.

Definition allCategories : list GeneralCategory :=
  [Lu; Ll; Lt; Lm; Lo; Mn; Mc; Me; Nd; Nl; No; Pc; Pd; Ps; Pe; Pi; Pf; Po;
   Sm; Sc; Sk; So; Zs; Zl; Zp; Cc; Cf; Cs; Co; Cn].

Definition majorClasses : list string :=
  ["L"; "M"; "N"; "P"; "S"; "Z"; "C"]%string.

(** [\p{name}] under the flag [u], for the short General_Category names.
    A one-letter name is the union of the categories that start with that
    letter, [LC] is [Lu], [Ll] and [Lt].  [None] stands for the
    [SyntaxError] of a name the engine refuses: of the members of the enums
    below only [L&], which is no property name of ECMAScript.  Names outside
    the short ones (long names, scripts, binary properties) are not
    modelled and count as refused. *)
Definition inMajorClass `{Unicode} (name : string) : RegExp :=
  {| test := fun c =>
       String.eqb (String.substring 0 1 (shortName (generalCategory c)))
                  name |}.

Definition propertyEscape `{Unicode} (name : string) : option RegExp :=
  if existsb (String.eqb name) majorClasses then Some (inMajorClass name)
  else if existsb (fun gc => String.eqb name (shortName gc)) allCategories then
    Some {| test := fun c => String.eqb (shortName (generalCategory c)) name |}
  else if String.eqb name "LC" then
    Some {| test := fun c =>
              match generalCategory c with
              | Lu | Ll | Lt => true
              | _ => false
              end |}
  else None.

(** ** The pattern enums

    String enums: their members are strings at run time. *)

Module TokenizeLetter.
Definition ALL : string := "L".
Definition LOWERCASE : string := "Ll".
Definition UPPERCASE : string := "Lu".
Definition TITLECASE : string := "Lt".
Definition CASED : string := "L&".
Definition OTHER : string := "Lm".
Definition MODIFIER : string := "Lo".
End TokenizeLetter.

Module TokenizeMark.
Definition ALL : string := "M".
Definition NON_SPACING : string := "Mn".
Definition SPACING_COMBINING : string := "Mc".
Definition ENCLOSING : string := "Me".
End TokenizeMark.

Module TokenizeSeparator.
Definition ALL : string := "Z".
Definition SPACE : string := "Zs".
Definition LINE : string := "Zl".
Definition PARAGRAPH : string := "Zp".
End TokenizeSeparator.

Module TokenizeSymbol.
Definition ALL : string := "S".
Definition MATH : string := "Sm".
Definition CURRENCY : string := "Sc".
Definition MODIFIER : string := "Sk".
Definition OTHER : string := "So".
End TokenizeSymbol.

Module TokenizeNumber.
Definition ALL : string := "N".
Definition DECIMAL_DIGIT : string := "Nd".
Definition LETTER : string := "Nl".
Definition OTHER : string := "No".
End TokenizeNumber.

Module TokenizePunctuation.
Definition ALL : string := "P".
Definition DASH : string := "Pd".
Definition OPEN : string := "Ps".
Definition CLOSE : string := "Pe".
Definition INITIAL : string := "Pi".
Definition FINAL : string := "Pf".
Definition CONNECTOR : string := "Pc".
Definition OTHER : string := "Po".
End TokenizePunctuation.

Module TokenizeOther.
Definition ALL : string := "C".
Definition CONTROL : string := "Cc".
Definition FORMAT : string := "Cf".
Definition SURROGATE : string := "Cs".
Definition PRIVATE_USE : string := "Co".
Definition UNASSIGNED : string := "Cn".
End TokenizeOther.

Module TokenizeWord.
Definition SIMPLE : string := "L".
Definition COMPLEX : string := "[\p{L}\p{Pd}']".
End TokenizeWord.

(** The value a rule instruction holds under its type key: one of the enum
    strings or a [RegExp] by its type, anything at run time. *)
Inductive Pattern :=
| PUndefined
| PNull
| PString (s : string)
| PRegExp (re : RegExp).

(** [`${patternStr}`] inside a template string. *)
Definition templateString (p : Pattern) : string :=
  match p with
  | PUndefined => "undefined"
  | PNull => "null"
  | PString s => s
  | PRegExp _ => "[object RegExp]"
  end%string.

(** [!regex]: the falsy patterns. *)
Definition falsy (p : Pattern) : bool :=
  match p with
  | PUndefined | PNull => true
  | PString s => String.eqb s EmptyString
  | PRegExp _ => false
  end.

Definition apostrophe : CodeUnit := 39%N.

(** [toRegex], the same in both listings once its argument is known not to
    be a [RegExp]:
    [pattern = patternStr === TokenizeWord.COMPLEX ? TokenizeWord.COMPLEX
                                                   : `\\p{${patternStr}}`;
     return new RegExp(pattern, "u")].
    The two shapes of [pattern] are compiled directly: the class
    [[\p{L}\p{Pd}']] and a lone property escape. *)
Definition toRegex `{Unicode} (patternStr : Pattern) : Thrown + RegExp :=
  match patternStr with
  | PString s =>
      if String.eqb s TokenizeWord.COMPLEX then
        match propertyEscape "L", propertyEscape "Pd" with
        | Some l, Some d =>
            inr {| test := fun c =>
                     test l c || test d c || N.eqb c apostrophe |}
        | _, _ => inl SyntaxError
        end
      else
        match propertyEscape s with
        | Some re => inr re
        | None => inl SyntaxError
        end
  | _ =>
      match propertyEscape (templateString patternStr) with
      | Some re => inr re
      | None => inl SyntaxError
      end
  end.

(** A rule instruction [{ type: pattern }], as the list of its own
    enumerable properties in the order of [Object.keys]. *)
Definition TokenizerInstruction := list (string * Pattern).

Definition Object_keys (o : TokenizerInstruction) : list string := map fst o.

(** [o[key]]: [undefined] when the object has no such property. *)
Fixpoint Object_get (o : TokenizerInstruction) (key : string) : Pattern :=
  match o with
  | [] => PUndefined
  | (k, v) :: rest => if String.eqb k key then v else Object_get rest key
  end.

(** ** Tokens (the same class in both listings) *)

Definition TokenIndex := nat.
Definition TokenType := string.
Definition TokenValue := JsString.
Definition TokenPosition := (nat * nat)%type.

Module Token.
Record Token := new {
  index : TokenIndex;
  type : TokenType;
  value : TokenValue;
  position : TokenPosition
}.

Definition toString (tok : Token) : JsString := value tok.

Definition toJSON (tok : Token)
  : TokenType * TokenValue * TokenPosition * TokenIndex :=
  (type tok, value tok, position tok, index tok).
End Token.

(** [typeof text === 'string' || text instanceof String] *)
Definition isString (text : JsValue) : bool :=
  match text with
  | JsStr _ | JsStringObject _ => true
  | _ => false
  end.

(** The units of a value that passed [isString]. *)
Definition units (text : JsValue) : JsString :=
  match text with
  | JsStr s | JsStringObject s => s
  | _ => []
  end.

(** The inner loop, the same in both listings:
    [while (end < size) {
       const nextChar = text[end];
       if (rule.regex.test(nextChar)) { value += nextChar; end++; }
       else { break; }
     }]
    Each iteration that does not leave the loop increases [end], so
    [size - end] iterations are enough; the loop is entered with that much
    fuel.  [text[end]] is read under the guard [end < size]; out of range it
    would be [undefined], which the model treats as a unit that fails. *)
Fixpoint whileLoop (fuel : nat) (regex : RegExp) (text : JsString) (size : nat)
  (value : TokenValue) (end_ : nat) : TokenValue * nat :=
  match fuel with
  | O => (value, end_)
  | S fuel' =>
      if end_ <? size then
        match nth_error text end_ with
        | Some nextChar =>
            if test regex nextChar
            then whileLoop fuel' regex text size (value ++ [nextChar]) (S end_)
            else (value, end_)
        | None => (value, end_)
        end
      else (value, end_)
  end.

(** ** The listing [src/src/index.ts] *)

Module Index.

Module Rule.
Record Rule := mk {
  regex : RegExp;
  type : TokenType;
  shouldCaptureGroup : bool
}.

(** [constructor(type, regex, captureAsAGroup?)]:
    [this.r = regex instanceof RegExp ? regex : Rule.toRegex(regex);
     this.t = type;
     this.g = captureAsAGroup || false]. *)
Definition new `{Unicode} (type : TokenType) (regex : Pattern)
  (captureAsAGroup : option bool) : Thrown + Rule :=
  match (match regex with
         | PRegExp re => inr re
         | _ => toRegex regex
         end) with
  | inl e => inl e
  | inr r =>
      inr {| regex := r;
             type := type;
             shouldCaptureGroup :=
               match captureAsAGroup with
               | Some b => b
               | None => false
               end |}
  end.
End Rule.

Module Tokenizer.
Record Tokenizer := mk { r : list Rule.Rule }.

(** Methods run on the object they are called on and leave an object
    behind. *)
Definition M (A : Type) := Tokenizer -> A * Tokenizer.

Definition ret {A} (a : A) : M A := fun this => (a, this).

Definition bind {A B} (c : M A) (k : A -> M B) : M B :=
  fun this => let (a, this') := c this in k a this'.

Notation "x <- c ;; k" := (bind c (fun x => k))
  (at level 61, c at next level, right associativity).

(** [captureMono(instruction)]:
    [const type = Object.keys(instruction)[0];
     return new Rule(type, instruction[type])].
    On an object without keys both [type] and [instruction[type]] are
    [undefined], and the first statement of the constructor throws
    before the type is stored. *)
Definition captureMono `{Unicode} (instruction : TokenizerInstruction)
  : Thrown + Rule.Rule :=
  match Object_keys instruction with
  | type :: _ => Rule.new type (Object_get instruction type) None
  | [] => Rule.new "undefined" PUndefined None
  end.

(** [captureGroup(instruction)]: as [captureMono], with
    [new Rule(type, instruction[type], true)]. *)
Definition captureGroup `{Unicode} (instruction : TokenizerInstruction)
  : Thrown + Rule.Rule :=
  match Object_keys instruction with
  | type :: _ => Rule.new type (Object_get instruction type) (Some true)
  | [] => Rule.new "undefined" PUndefined (Some true)
  end.

(** An array literal: its elements are evaluated from left to right and
    the first one that throws ends the evaluation. *)
Fixpoint arrayLiteral {A} (elements : list (Thrown + A))
  : Thrown + list A :=
  match elements with
  | [] => inr []
  | inl e :: _ => inl e
  | inr a :: rest =>
      match arrayLiteral rest with
      | inl e => inl e
      | inr l => inr (a :: l)
      end
  end.

(** [constructor(rules?)]: [this.r = rules ? rules : [ ...five rules... ]].
    An array is truthy, the empty one too; [None] is the omitted
    argument. *)
Definition new `{Unicode} (rules : option (list Rule.Rule))
  : Thrown + Tokenizer :=
  match rules with
  | Some rules => inr {| r := rules |}
  | None =>
      match arrayLiteral
              [ captureGroup [("word", PString TokenizeLetter.ALL)];
                captureGroup [("number", PString TokenizeNumber.ALL)];
                captureMono [("space", PString TokenizeSeparator.ALL)];
                captureMono
                  [("punctuation", PString TokenizePunctuation.ALL)];
                captureGroup [("symbol", PString TokenizeSymbol.ALL)]
              ]
      with
      | inl e => inl e
      | inr rules => inr {| r := rules |}
      end
  end.

(** [get _rules() { return this.r; }] *)
Definition _rules : M (list Rule.Rule) := fun this => (r this, this).

(** [update(rules) { this.r = rules; return this; }]: the object left
    behind is the one returned. *)
Definition update (rules : list Rule.Rule) : M unit :=
  fun _ => (tt, {| r := rules |}).

(** The body of [for (const rule of this._rules)], from the rule at the
    head of [rules] on, with its [break].  It returns the cursor and the
    tokens it leaves. *)
Fixpoint forOf (rules : list Rule.Rule) (text : JsString) (size : nat)
  (char : CodeUnit) (cursor : nat) (tokens : list Token.Token)
  : nat * list Token.Token :=
  match rules with
  | [] => (cursor, tokens)
  | rule :: rest =>
      if test (Rule.regex rule) char then
        let value := [char] in
        let position := (cursor, cursor + 1) in
        let type := Rule.type rule in
        let '(value, position, cursor) :=
          if Rule.shouldCaptureGroup rule then
            let end_ := cursor + 1 in
            let '(value, end_) :=
              whileLoop (size - end_) (Rule.regex rule) text size
                        value end_ in
            (value, (cursor, end_), end_ - 1)
          else (value, position, cursor) in
        (cursor, tokens ++ [Token.new (List.length tokens) type value position])
      else forOf rest text size char cursor tokens
  end.

(** [for (let cursor = 0; cursor < size; cursor++)], from [cursor] on.
    The body never lowers the cursor, so [size - cursor] iterations are
    enough. *)
Fixpoint forLoop (fuel : nat) (text : JsString) (size : nat)
  (cursor : nat) (tokens : list Token.Token) : M (list Token.Token) :=
  match fuel with
  | O => ret tokens
  | S fuel' =>
      if cursor <? size then
        match nth_error text cursor with
        | Some char =>
            rules <- _rules ;;
            let '(cursor, tokens) :=
              forOf rules text size char cursor tokens in
            forLoop fuel' text size (S cursor) tokens
        | None => ret tokens
        end
      else ret tokens
  end.

(** [tokenize(text)] *)
Definition tokenize (text : JsValue) : M (list Token.Token) :=
  if negb (isString text) then ret []
  else
    let tokens := [] in
    let size := List.length (units text) in
    forLoop size (units text) size 0 tokens.
End Tokenizer.

End Index.

(** ** The listing in [src/README.md] *)

Module Readme.

(** [type TokenizerRule = Record<TokenType, KnownRegexPatterns | RegExp>] *)
Definition TokenizerRule := TokenizerInstruction.

Module TokenizerBakedRule.
Record TokenizerBakedRule := mk {
  regex : RegExp;
  type : TokenType;
  shouldCaptureMulti : bool
}.

(** [toRegex = (regex) => { if (regex instanceof RegExp) return regex;
                             ...; return new RegExp(pattern, "u"); }] *)
Definition toRegex `{Unicode} (regex : Pattern) : Thrown + RegExp :=
  match regex with
  | PRegExp re => inr re
  | _ => toRegex regex
  end.

(** [constructor(rule, captureMulti?)]:
    [const keys = Object.keys(rule);
     if (!keys.length) throw new Error("Omitting the rule that has no type");
     const ruleType = keys[0];
     const regex = rule[ruleType];
     if (!regex) throw new Error("Omitting the rule that has no value");
     this.t = ruleType;
     this.r = TokenizerBakedRule.toRegex(regex);
     this.m = captureMulti || false]. *)
Definition new `{Unicode} (rule : TokenizerRule)
  (captureMulti : option bool) : Thrown + TokenizerBakedRule :=
  let keys := Object_keys rule in
  match keys with
  | [] => inl (Error "Omitting the rule that has no type")
  | ruleType :: _ =>
      let regex := Object_get rule ruleType in
      if falsy regex then inl (Error "Omitting the rule that has no value")
      else
        match toRegex regex with
        | inl e => inl e
        | inr r =>
            inr {| type := ruleType;
                   regex := r;
                   shouldCaptureMulti :=
                     match captureMulti with
                     | Some b => b
                     | None => false
                     end |}
        end
  end.
End TokenizerBakedRule.

Module Tokenizer.
Import TokenizerBakedRule.

(** [this.r] is an array whose elements are rule objects or [null]; the
    cast [as TokenizerBakedRule[]] leaves no trace at run time. *)
Record Tokenizer := mk { r : list (option TokenizerBakedRule) }.

(** Methods run on the object they are called on, leave an object
    behind, and return a value or throw. *)
Definition M (A : Type) := Tokenizer -> (Thrown + A) * Tokenizer.

Definition ret {A} (a : A) : M A := fun this => (inr a, this).

Definition throw {A} (e : Thrown) : M A := fun this => (inl e, this).

Definition bind {A B} (c : M A) (k : A -> M B) : M B :=
  fun this =>
    match c this with
    | (inl e, this') => (inl e, this')
    | (inr a, this') => k a this'
    end.

Notation "x <- c ;; k" := (bind c (fun x => k))
  (at level 61, c at next level, right associativity).

(** [ruleMono(rule)]:
    [try { return new TokenizerBakedRule(rule); }
     catch (e) { console.warn(e); return null; }] *)
Definition ruleMono `{Unicode} (rule : TokenizerRule)
  : option TokenizerBakedRule :=
  match TokenizerBakedRule.new rule None with
  | inr baked => Some baked
  | inl _ => None
  end.

(** [ruleMulti(rule)]: as [ruleMono], with
    [new TokenizerBakedRule(rule, true)]. *)
Definition ruleMulti `{Unicode} (rule : TokenizerRule)
  : option TokenizerBakedRule :=
  match TokenizerBakedRule.new rule (Some true) with
  | inr baked => Some baked
  | inl _ => None
  end.

(** [getDefaultRules()] *)
Definition getDefaultRules `{Unicode} : list (option TokenizerBakedRule) :=
  [ ruleMulti [("word", PString TokenizeLetter.ALL)];
    ruleMono [("space", PString TokenizeSeparator.ALL)];
    ruleMono [("punctuation", PString TokenizePunctuation.ALL)];
    ruleMulti [("number", PString TokenizeNumber.ALL)];
    ruleMulti [("symbol", PString TokenizeSymbol.ALL)] ].

(** [Boolean(r)] on an element of the rule array. *)
Definition Boolean (r : option TokenizerBakedRule) : bool :=
  match r with
  | Some _ => true
  | None => false
  end.

(** [constructor(rules?)]:
    [const rulesToApply = rules || Tokenizer.getDefaultRules();
     this.r = rulesToApply.filter(r => Boolean(r))].
    An array is truthy, the empty one too; [None] is the omitted
    argument. *)
Definition new `{Unicode} (rules : option (list (option TokenizerBakedRule)))
  : Tokenizer :=
  let rulesToApply :=
    match rules with
    | Some rules => rules
    | None => getDefaultRules
    end in
  {| r := filter Boolean rulesToApply |}.

(** [get rules() { return this.r; }] *)
Definition rules : M (list (option TokenizerBakedRule)) :=
  fun this => (inr (r this), this).

(** [update(rules) { this.r = rules.filter(r => Boolean(r));
                     return this; }] *)
Definition update (rules : list (option TokenizerBakedRule)) : M unit :=
  fun _ => (inr tt, {| r := filter Boolean rules |}).

(** [for (let i = 0; i < rulesAmount; i++) { const rule = this.rules[i];
    ... }], from [i] on, with its [break].  Reading [regex] off
    [undefined] or [null] throws a [TypeError].  The counter grows at
    each turn, so [rulesAmount - i] iterations are enough. *)
Fixpoint forRules (fuel : nat) (rulesAmount : nat) (i : nat)
  (text : JsString) (size : nat) (char : CodeUnit) (cursor : nat)
  (tokens : list Token.Token) : M (nat * list Token.Token) :=
  match fuel with
  | O => ret (cursor, tokens)
  | S fuel' =>
      if i <? rulesAmount then
        this_rules <- rules ;;
        match nth_error this_rules i with
        | Some (Some rule) =>
            if test (regex rule) char then
              let value := [char] in
              let position := (cursor, cursor + 1) in
              let type := type rule in
              let '(value, position, cursor) :=
                if shouldCaptureMulti rule then
                  let end_ := cursor + 1 in
                  let '(value, end_) :=
                    whileLoop (size - end_) (regex rule) text size
                              value end_ in
                  (value, (cursor, end_), end_ - 1)
                else (value, position, cursor) in
              ret (cursor,
                   tokens
                     ++ [Token.new (List.length tokens) type value position])
            else
              forRules fuel' rulesAmount (S i) text size char cursor tokens
        | _ => throw TypeError
        end
      else ret (cursor, tokens)
  end.

(** [for (let cursor = 0; cursor < size; cursor++)], from [cursor] on. *)
Fixpoint forLoop (fuel : nat) (text : JsString) (size : nat)
  (rulesAmount : nat) (cursor : nat) (tokens : list Token.Token)
  : M (list Token.Token) :=
  match fuel with
  | O => ret tokens
  | S fuel' =>
      if cursor <? size then
        match nth_error text cursor with
        | Some char =>
            step <- forRules (rulesAmount - 0) rulesAmount 0
                             text size char cursor tokens ;;
            let '(cursor, tokens) := step in
            forLoop fuel' text size rulesAmount (S cursor) tokens
        | None => ret tokens
        end
      else ret tokens
  end.

(** [tokenize(text)] *)
Definition tokenize (text : JsValue) : M (list Token.Token) :=
  if negb (isString text) then ret []
  else
    let tokens := [] in
    let size := List.length (units text) in
    this_rules <- rules ;;
    let rulesAmount := List.length this_rules in
    forLoop size (units text) size rulesAmount 0 tokens.
End Tokenizer.

End Readme.

(** ** A sample of the character database

    Basic Latin with its General_Category values; every unit above it is
    lumped into [Cn].  It serves the examples below, nothing else. *)
Definition basicLatinCategory (c : CodeUnit) : GeneralCategory :=
  let n := N.to_nat c in
  if n <? 32 then Cc
  else if n =? 32 then Zs
  else if (48 <=? n) && (n <=? 57) then Nd
  else if (65 <=? n) && (n <=? 90) then Lu
  else if (97 <=? n) && (n <=? 122) then Ll
  else if n =? 36 then Sc
  else if existsb (Nat.eqb n) [43; 60; 61; 62; 124; 126] then Sm
  else if existsb (Nat.eqb n) [94; 96] then Sk
  else if n =? 45 then Pd
  else if existsb (Nat.eqb n) [40; 91; 123] then Ps
  else if existsb (Nat.eqb n) [41; 93; 125] then Pe
  else if n =? 95 then Pc
  else if n =? 127 then Cc
  else if n <? 127 then Po
  else Cn.

Definition basicLatin : Unicode := {| generalCategory := basicLatinCategory |}.

(** ** Vocabulary of the properties *)

(** The prefix of [l] on which [p] holds throughout. *)
Fixpoint takeWhile {A} (p : A -> bool) (l : list A) : list A :=
  match l with
  | [] => []
  | x :: rest => if p x then x :: takeWhile p rest else []
  end.

(** [text.substring(start, end)] for [start <= end]. *)
Definition substring (text : JsString) (start end_ : nat) : JsString :=
  firstn (end_ - start) (skipn start text).

Definition start (tok : Token.Token) : nat := fst (Token.position tok).
Definition end_ (tok : Token.Token) : nat := snd (Token.position tok).

(** [rule.regex.test(char)] *)
Definition matches (char : CodeUnit) (rule : Index.Rule.Rule) : bool :=
  test (Index.Rule.regex rule) char.

(** The first rule, in list order, whose predicate accepts [char]. *)
Definition firstMatch (rules : list Index.Rule.Rule) (char : CodeUnit)
  : option Index.Rule.Rule :=
  find (matches char) rules.

Definition anyMatch (rules : list Index.Rule.Rule) (char : CodeUnit) : bool :=
  existsb (matches char) rules.

(** The units a rule captures when it is the first match at [cursor]: the
    longest run its predicate accepts for a group rule, one unit otherwise. *)
Definition captured (rule : Index.Rule.Rule) (text : JsString) (cursor : nat)
  : JsString :=
  if Index.Rule.shouldCaptureGroup rule
  then takeWhile (test (Index.Rule.regex rule)) (skipn cursor text)
  else firstn 1 (skipn cursor text).

(** The token a rule yields when it is the first match at [cursor] and
    [index] tokens were emitted before. *)
Definition tokenAt (rule : Index.Rule.Rule) (text : JsString) (cursor : nat)
  (index : nat) : Token.Token :=
  Token.new index (Index.Rule.type rule) (captured rule text cursor)
            (cursor, cursor + List.length (captured rule text cursor)).

(** A unit that no rule accepts: at the cursor it is passed over. *)
Definition dropped (rules : list Index.Rule.Rule) (text : JsString) (k : nat)
  : Prop :=
  exists c, nth_error text k = Some c /\ anyMatch rules c = false.

(** A token as the scan emits it: it starts at a unit whose first matching
    rule gives it its type, its value and its span. *)
Definition emitted (rules : list Index.Rule.Rule) (text : JsString)
  (tok : Token.Token) : Prop :=
  exists c rule,
    nth_error text (start tok) = Some c /\
    firstMatch rules c = Some rule /\
    tok = tokenAt rule text (start tok) (Token.index tok).

(** The tokens of a primitive string under a rule list, [index.ts]. *)
Definition tokens (rules : list Index.Rule.Rule) (text : JsString)
  : list Token.Token :=
  fst (Index.Tokenizer.tokenize (JsStr text) (Index.Tokenizer.mk rules)).

(** The spans of [toks], read from [from] up to [upto]: every token is
    non-empty, no token starts before its predecessor ends, and every unit
    left between two tokens, before the first or after the last is a
    dropped one. *)
Fixpoint chain (rules : list Index.Rule.Rule) (text : JsString) (from : nat)
  (toks : list Token.Token) (upto : nat) : Prop :=
  match toks with
  | [] => from <= upto /\ forall k, from <= k < upto -> dropped rules text k
  | tok :: rest =>
      from <= start tok /\
      (forall k, from <= k < start tok -> dropped rules text k) /\
      start tok < end_ tok /\
      chain rules text (end_ tok) rest upto
  end.

(** Unit [k] lies inside the span of one of the tokens. *)
Definition covered (toks : list Token.Token) (k : nat) : Prop :=
  exists tok, In tok toks /\ start tok <= k < end_ tok.

(** Each token ends where the next one starts. *)
Definition contiguous (toks : list Token.Token) : Prop :=
  forall i a b,
    nth_error toks i = Some a -> nth_error toks (S i) = Some b ->
    end_ a = start b.

(** The first token, when there is one, starts at 0. *)
Definition startsAtZero (toks : list Token.Token) : Prop :=
  forall a, nth_error toks 0 = Some a -> start a = 0.

(** [Tokenizer.captureMono({period: new RegExp('\\.')})], the rule of the
    manual's last example: the pattern accepts the full stop, unit 46. *)
Definition periodRule : Index.Rule.Rule :=
  Index.Rule.mk {| test := fun c => N.eqb c 46 |} "period" false.

(** [Tokenizer.captureGroup({letters: new RegExp('[a-z]')})] *)
Definition lettersRule : Index.Rule.Rule :=
  Index.Rule.mk {| test := fun c => N.leb 97 c && N.leb c 122 |} "letters" true.

(** A baked rule of the second listing, read as a rule of the first. *)
Definition unbake (baked : Readme.TokenizerBakedRule.TokenizerBakedRule)
  : Index.Rule.Rule :=
  Index.Rule.mk (Readme.TokenizerBakedRule.regex baked)
                (Readme.TokenizerBakedRule.type baked)
                (Readme.TokenizerBakedRule.shouldCaptureMulti baked).

(** The rule objects of an array, its [null]s left out. *)
Fixpoint ruleObjects {A} (rules : list (option A)) : list A :=
  match rules with
  | [] => []
  | Some rule :: rest => rule :: ruleObjects rest
  | None :: rest => ruleObjects rest
  end.

(** The rule list of a [Tokenizer] of the second listing holds no [null]. *)
Definition noNull (this : Readme.Tokenizer.Tokenizer) : Prop :=
  Forall (fun rule => rule <> None) (Readme.Tokenizer.r this).

(** The objects of the second listing that a program can get hold of:
    built by the constructor, then used through [update] and [tokenize]. *)
Inductive Reachable `{Unicode} : Readme.Tokenizer.Tokenizer -> Prop :=
| Reachable_new rules : Reachable (Readme.Tokenizer.new rules)
| Reachable_update this rules :
    Reachable this -> Reachable (snd (Readme.Tokenizer.update rules this))
| Reachable_tokenize this text :
    Reachable this -> Reachable (snd (Readme.Tokenizer.tokenize text this)).

(** The five default rules, spelled out. *)
Definition wordRule `{Unicode} : Index.Rule.Rule :=
  Index.Rule.mk (inMajorClass "L") "word" true.
Definition spaceRule `{Unicode} : Index.Rule.Rule :=
  Index.Rule.mk (inMajorClass "Z") "space" false.
Definition punctuationRule `{Unicode} : Index.Rule.Rule :=
  Index.Rule.mk (inMajorClass "P") "punctuation" false.
Definition numberRule `{Unicode} : Index.Rule.Rule :=
  Index.Rule.mk (inMajorClass "N") "number" true.
Definition symbolRule `{Unicode} : Index.Rule.Rule :=
  Index.Rule.mk (inMajorClass "S") "symbol" true.

(** The same rule as an element of the rule array of the second listing. *)
Definition baked (rule : Index.Rule.Rule)
  : option Readme.TokenizerBakedRule.TokenizerBakedRule :=
  Some (Readme.TokenizerBakedRule.mk (Index.Rule.regex rule)
          (Index.Rule.type rule) (Index.Rule.shouldCaptureGroup rule)).

(** The outer loop on [text] from [cursor] on, run on an object that holds
    [rules]. *)
Definition scan (rules : list Index.Rule.Rule) (text : JsString)
  (fuel cursor : nat) (toks : list Token.Token)
  : list Token.Token * Index.Tokenizer.Tokenizer :=
  Index.Tokenizer.forLoop fuel text (List.length text) cursor toks
    (Index.Tokenizer.mk rules).

(** What a run of the second listing on a primitive string returns, under
    the sample database: the tokens, or what was thrown. *)
Definition run (rules : option (list (option
                  Readme.TokenizerBakedRule.TokenizerBakedRule)))
  (text : JsString) : Thrown + list Token.Token :=
  fst (Readme.Tokenizer.tokenize (JsStr text)
         (@Readme.Tokenizer.new basicLatin rules)).

(** The rule sets of the manual and of the test-suite. *)
Definition simpleWords
  : list (option Readme.TokenizerBakedRule.TokenizerBakedRule) :=
  [ @Readme.Tokenizer.ruleMulti basicLatin
      [("word", PString TokenizeWord.SIMPLE)];
    @Readme.Tokenizer.ruleMono basicLatin
      [("space", PString TokenizeSeparator.ALL)];
    @Readme.Tokenizer.ruleMono basicLatin
      [("punct", PString TokenizePunctuation.ALL)] ].

Definition complexWords (punct : TokenType)
  : list (option Readme.TokenizerBakedRule.TokenizerBakedRule) :=
  [ @Readme.Tokenizer.ruleMulti basicLatin
      [("word", PString TokenizeWord.COMPLEX)];
    @Readme.Tokenizer.ruleMono basicLatin
      [("space", PString TokenizeSeparator.ALL)];
    @Readme.Tokenizer.ruleMono basicLatin
      [(punct, PString TokenizePunctuation.ALL)] ].

(** [new RegExp('\\.')] and [new RegExp('[öüä]')]: the full stop is unit
    46, the three vowels are units 246, 252 and 228. *)
Definition periodAndUmlaut
  : list (option Readme.TokenizerBakedRule.TokenizerBakedRule) :=
  [ @Readme.Tokenizer.ruleMono basicLatin
      [("period", PRegExp {| test := fun c => N.eqb c 46 |})];
    @Readme.Tokenizer.ruleMono basicLatin
      [("umlaut",
        PRegExp {| test := fun c =>
                     N.eqb c 246 || N.eqb c 252 || N.eqb c 228 |})] ].

Definition types (result : Thrown + list Token.Token) : list TokenType :=
  match result with
  | inr toks => map Token.type toks
  | inl _ => []
  end.

(** ** Vocabulary of the further properties *)

(** No unit is accepted by two different rules of the list. *)
Definition disjointRules (rules : list Index.Rule.Rule) : Prop :=
  forall c r1 r2,
    In r1 rules -> In r2 rules ->
    matches c r1 = true -> matches c r2 = true -> r1 = r2.

(** A token of a text that is read [offset] units into a longer text, after
    [count] tokens. *)
Definition shift (offset count : nat) (tok : Token.Token) : Token.Token :=
  Token.new (count + Token.index tok) (Token.type tok) (Token.value tok)
            (offset + start tok, offset + end_ tok).

(** The units of the major classes Mark and Other. *)
Definition isMarkOrOther `{Unicode} (c : CodeUnit) : bool :=
  match generalCategory c with
  | Mn | Mc | Me | Cc | Cf | Cs | Co | Cn => true
  | _ => false
  end.

(** The default rules in the order of [getDefaultRules]. *)
Definition defaultRules `{Unicode} : list Index.Rule.Rule :=
  [wordRule; spaceRule; punctuationRule; numberRule; symbolRule].

(** The members of the eight pattern enums. *)
Definition knownRegexPatterns : list string :=
  [ TokenizeLetter.ALL; TokenizeLetter.LOWERCASE; TokenizeLetter.UPPERCASE;
    TokenizeLetter.TITLECASE; TokenizeLetter.CASED; TokenizeLetter.OTHER;
    TokenizeLetter.MODIFIER;
    TokenizeMark.ALL; TokenizeMark.NON_SPACING;
    TokenizeMark.SPACING_COMBINING; TokenizeMark.ENCLOSING;
    TokenizeSeparator.ALL; TokenizeSeparator.SPACE; TokenizeSeparator.LINE;
    TokenizeSeparator.PARAGRAPH;
    TokenizeSymbol.ALL; TokenizeSymbol.MATH; TokenizeSymbol.CURRENCY;
    TokenizeSymbol.MODIFIER; TokenizeSymbol.OTHER;
    TokenizeNumber.ALL; TokenizeNumber.DECIMAL_DIGIT; TokenizeNumber.LETTER;
    TokenizeNumber.OTHER;
    TokenizePunctuation.ALL; TokenizePunctuation.DASH;
    TokenizePunctuation.OPEN; TokenizePunctuation.CLOSE;
    TokenizePunctuation.INITIAL; TokenizePunctuation.FINAL;
    TokenizePunctuation.CONNECTOR; TokenizePunctuation.OTHER;
    TokenizeOther.ALL; TokenizeOther.CONTROL; TokenizeOther.FORMAT;
    TokenizeOther.SURROGATE; TokenizeOther.PRIVATE_USE;
    TokenizeOther.UNASSIGNED;
    TokenizeWord.SIMPLE; TokenizeWord.COMPLEX ].

(** ** [index.ts] with [RegExp] objects that keep [lastIndex]

    The builders keep a [RegExp] handed in by the caller as it is
    ([regex instanceof RegExp ? regex : ...]), flags included.  With the
    flag [g] or [y], [test] starts at [lastIndex] and writes it back, so
    the verdict on a unit depends on the calls before.  Module [Live]
    embeds [tokenize] of [index.ts] once more, with the rules holding
    references to [RegExp] objects in a store; [RegExp] above is the case
    without these flags, as [tokenize_without_flags] below shows. *)

Module Live.

(** A [RegExp] object: what its pattern matches in a string from an index
    (the index where the match ends, if there is one), two of its flags,
    and [lastIndex]. *)
Record RegExpObject := {
  matcher : JsString -> nat -> option nat;
  global : bool;
  sticky : bool;
  lastIndex : nat
}.

Definition setLastIndex (n : nat) (re : RegExpObject) : RegExpObject :=
  {| matcher := matcher re; global := global re; sticky := sticky re;
     lastIndex := n |}.

(** The loop of [RegExpBuiltinExec] on the string [input] from
    [lastIndex]: past the end of [input] the search fails; a failed attempt
    ends the search of a sticky pattern and otherwise moves on by one, which
    is what [AdvanceStringIndex] does in a string of one unit.  In such a
    string the indices to try are 0 and 1, and 2 is past the end. *)
Fixpoint search (fuel : nat) (re : RegExpObject) (input : JsString)
  (lastIndex : nat) : option nat :=
  match fuel with
  | O => None
  | S fuel' =>
      if List.length input <? lastIndex then None
      else
        match matcher re input lastIndex with
        | Some e => Some e
        | None =>
            if sticky re then None
            else search fuel' re input (S lastIndex)
        end
  end.

(** [regex.test(char)] on the one-unit string [char]: the verdict, and the
    value written to [lastIndex] when the pattern is global or sticky (the
    end of the match, or 0 after a failure).  Without these flags the
    search starts at 0 and nothing is written. *)
Definition test (re : RegExpObject) (char : CodeUnit) : bool * option nat :=
  let flagged := global re || sticky re in
  let from := if flagged then lastIndex re else 0 in
  match search 3 re [char] from with
  | Some e => (true, if flagged then Some e else None)
  | None => (false, if flagged then Some 0 else None)
  end.

(** Objects live in a store and are held by reference. *)
Definition Address := nat.
Definition Heap := Address -> RegExpObject.

Definition store (a : Address) (re : RegExpObject) (heap : Heap) : Heap :=
  fun x => if x =? a then re else heap x.

(** [rule.regex.test(char)] through the reference. *)
Definition regex_test (regex : Address) (char : CodeUnit) (heap : Heap)
  : bool * Heap :=
  match test (heap regex) char with
  | (verdict, Some n) =>
      (verdict, store regex (setLastIndex n (heap regex)) heap)
  | (verdict, None) => (verdict, heap)
  end.

Record Rule := mkRule {
  regex : Address;
  type : TokenType;
  shouldCaptureGroup : bool
}.

Record Tokenizer := mk { r : list Rule }.

(** Methods run on an object and on the store. *)
Definition M (A : Type) := Tokenizer * Heap -> A * (Tokenizer * Heap).

Definition ret {A} (a : A) : M A := fun s => (a, s).

Definition bind {A B} (c : M A) (k : A -> M B) : M B :=
  fun s => let (a, s') := c s in k a s'.

Definition _rules : M (list Rule) := fun s => (r (fst s), s).

(** A computation on the store alone. *)
Definition onHeap {A} (c : Heap -> A * Heap) : M A :=
  fun s => let (a, heap') := c (snd s) in (a, (fst s, heap')).

(** The inner [while] loop, as [whileLoop] above. *)
Fixpoint whileLoop (fuel : nat) (regex : Address) (text : JsString)
  (size : nat) (value : TokenValue) (end_ : nat) (heap : Heap)
  : TokenValue * nat * Heap :=
  match fuel with
  | O => (value, end_, heap)
  | S fuel' =>
      if end_ <? size then
        match nth_error text end_ with
        | Some nextChar =>
            let (verdict, heap) := regex_test regex nextChar heap in
            if verdict
            then whileLoop fuel' regex text size (value ++ [nextChar])
                           (S end_) heap
            else (value, end_, heap)
        | None => (value, end_, heap)
        end
      else (value, end_, heap)
  end.

(** The body of [for (const rule of this._rules)], as
    [Index.Tokenizer.forOf]. *)
Fixpoint forOf (rules : list Rule) (text : JsString) (size : nat)
  (char : CodeUnit) (cursor : nat) (tokens : list Token.Token) (heap : Heap)
  : nat * list Token.Token * Heap :=
  match rules with
  | [] => (cursor, tokens, heap)
  | rule :: rest =>
      let (verdict, heap) := regex_test (regex rule) char heap in
      if verdict then
        let value := [char] in
        let position := (cursor, cursor + 1) in
        let type := type rule in
        let '(value, position, cursor, heap) :=
          if shouldCaptureGroup rule then
            let end_ := cursor + 1 in
            let '(value, end_, heap) :=
              whileLoop (size - end_) (regex rule) text size value end_ heap in
            (value, (cursor, end_), end_ - 1, heap)
          else (value, position, cursor, heap) in
        (cursor,
         tokens ++ [Token.new (List.length tokens) type value position],
         heap)
      else forOf rest text size char cursor tokens heap
  end.

(** The outer [for] loop, as [Index.Tokenizer.forLoop]. *)
Fixpoint forLoop (fuel : nat) (text : JsString) (size : nat) (cursor : nat)
  (tokens : list Token.Token) : M (list Token.Token) :=
  match fuel with
  | O => ret tokens
  | S fuel' =>
      if cursor <? size then
        match nth_error text cursor with
        | Some char =>
            bind _rules (fun rules =>
            bind (onHeap (forOf rules text size char cursor tokens))
                 (fun step =>
            let '(cursor, tokens) := step in
            forLoop fuel' text size (S cursor) tokens))
        | None => ret tokens
        end
      else ret tokens
  end.

(** [tokenize(text)] *)
Definition tokenize (text : JsValue) : M (list Token.Token) :=
  if negb (isString text) then ret []
  else
    let tokens := [] in
    let size := List.length (units text) in
    forLoop size (units text) size 0 tokens.

End Live.

(** The pattern of [/a/]: the unit 97 at the index. *)
Definition matcher_a (input : JsString) (i : nat) : option nat :=
  match nth_error input i with
  | Some c => if N.eqb c 97 then Some (i + 1) else None
  | None => None
  end.

(** [/a/g], fresh. *)
Definition regex_a_global : Live.RegExpObject :=
  {| Live.matcher := matcher_a; Live.global := true; Live.sticky := false;
     Live.lastIndex := 0 |}.

(** A tokenizer whose only rule is [captureMono({a: /a/g})], the object
    [/a/g] being at address 0 of the store. *)
Definition tokenizer_a_global : Live.Tokenizer * Live.Heap :=
  (Live.mk [Live.mkRule 0 "a" false], fun _ => regex_a_global).

(** A flagless object of the store read as a [RegExp]: the verdict of
    [test] on a unit. *)
Definition frozen (heap : Live.Heap) (rule : Live.Rule) : Index.Rule.Rule :=
  Index.Rule.mk
    {| test := fun c => fst (Live.test (heap (Live.regex rule)) c) |}
    (Live.type rule) (Live.shouldCaptureGroup rule).

(** No rule of the list holds a global or sticky [RegExp]. *)
Definition flagless (rules : list Live.Rule) (heap : Live.Heap) : Prop :=
  forall rule,
    In rule rules ->
    Live.global (heap (Live.regex rule)) = false
    /\ Live.sticky (heap (Live.regex rule)) = false.

(** A character class compiled without flags, as [toRegex] does. *)
Definition compiled (p : RegExp) : Live.RegExpObject :=
  {| Live.matcher := fun input i =>
       match nth_error input i with
       | Some c => if test p c then Some (i + 1) else None
       | None => None
       end;
     Live.global := false; Live.sticky := false; Live.lastIndex := 0 |}.

(** ** The examples of the manual and of the test-suite *)

(** The table that opens the manual. *)
Example mary_had_a_little_lamb :
  run None (js "Mary had a little lamb.")
  = inr [ Token.new 0 "word" (js "Mary") (0, 4);
          Token.new 1 "space" (js " ") (4, 5);
          Token.new 2 "word" (js "had") (5, 8);
          Token.new 3 "space" (js " ") (8, 9);
          Token.new 4 "word" (js "a") (9, 10);
          Token.new 5 "space" (js " ") (10, 11);
          Token.new 6 "word" (js "little") (11, 17);
          Token.new 7 "space" (js " ") (17, 18);
          Token.new 8 "word" (js "lamb") (18, 22);
          Token.new 9 "punctuation" (js ".") (22, 23) ].
Proof. reflexivity. Qed.

(** [tokens.length === 12] and [tokens.length === 8] in the manual. *)
Example marys_little_beetle :
  option_map (@List.length _)
    (match run (Some simpleWords) (js "Mary's had a little-beetle.") with
     | inr toks => Some toks
     | inl _ => None
     end) = Some 12
  /\ option_map (@List.length _)
       (match run (Some (complexWords "punct"))
                  (js "Mary's had a little-beetle.") with
        | inr toks => Some toks
        | inl _ => None
        end) = Some 8.
Proof. split; reflexivity. Qed.

(** Test [Sanity One]. *)
Example sanity_one :
  map (fun input =>
         fst (Readme.Tokenizer.tokenize input
                (@Readme.Tokenizer.new basicLatin None)))
      [JsStr []; JsUndefined; JsNumber 42; JsObject; JsNull]
  = [inr []; inr []; inr []; inr []; inr []].
Proof. reflexivity. Qed.

(** Test [Hyphenated Words: devil-grass]. *)
Example devil_grass :
  match run (Some (complexWords "punct"))
            (js "...and the devil-grass which brought sweet dreams,") with
  | inr toks => option_map Token.value (nth_error toks 7)
  | inl _ => None
  end = Some (js "devil-grass").
Proof. reflexivity. Qed.

(** Test [Default Apostrophes]. *)
Example default_apostrophes :
  types (run None (js "John's son has mother's eyes"))
  = [ "word"; "punctuation"; "word"; "space"; "word"; "space"; "word";
      "space"; "word"; "punctuation"; "word"; "space"; "word" ]%string.
Proof. reflexivity. Qed.

(** Test [Word Contractions]. *)
Example word_contractions :
  types (run (Some (complexWords "punctuation"))
             (js "He'll stay so I'll stay."))
  = [ "word"; "space"; "word"; "space"; "word"; "space"; "word"; "space";
      "word"; "punctuation" ]%string.
Proof. reflexivity. Qed.

(** Test [With Custom Regex]: one [period] and two [umlaut]s, everything
    else is passed over. *)
Example with_custom_regex :
  types (run (Some periodAndUmlaut)
             (js "Des Teufels liebstes M" ++ [246%N] ++ js "belst"
              ++ [252%N] ++ js "ck ist die lange Bank."))
  = [ "umlaut"; "umlaut"; "period" ]%string.
Proof. reflexivity. Qed.

(** ** Lists *)

Lemma nth_error_skipn_cons {A} (l : list A) n x :
  nth_error l n = Some x -> skipn n l = x :: skipn (S n) l.
Proof.
  revert l; induction n as [|n IH]; intros [|y l] H; simpl in *;
    try discriminate.
  - now inversion H.
  - now apply IH.
Qed.

Lemma skipn_nil_of_le {A} (l : list A) n :
  List.length l <= n -> skipn n l = [].
Proof. apply skipn_all2. Qed.

Lemma takeWhile_all {A} (p : A -> bool) l :
  Forall (fun x => p x = true) (takeWhile p l).
Proof.
  induction l as [|x l IH]; simpl; [constructor|].
  destruct (p x) eqn:E; constructor; assumption.
Qed.

Lemma takeWhile_firstn {A} (p : A -> bool) l :
  takeWhile p l = firstn (List.length (takeWhile p l)) l.
Proof.
  induction l as [|x l IH]; simpl; [reflexivity|].
  destruct (p x); simpl; [now f_equal | reflexivity].
Qed.

Lemma takeWhile_stop {A} (p : A -> bool) l x :
  nth_error l (List.length (takeWhile p l)) = Some x -> p x = false.
Proof.
  induction l as [|y l IH]; simpl; [discriminate|].
  destruct (p y) eqn:E; simpl; [exact IH|].
  intros H; inversion H; subst; exact E.
Qed.

(** ** The inner loop *)

Lemma whileLoop_spec regex text :
  forall fuel value e,
    List.length text - e <= fuel ->
    whileLoop fuel regex text (List.length text) value e
    = (value ++ takeWhile (test regex) (skipn e text),
       e + List.length (takeWhile (test regex) (skipn e text))).
Proof.
  induction fuel as [|fuel IH]; intros value e Hfuel.
  - simpl. rewrite skipn_nil_of_le by lia. simpl.
    now rewrite app_nil_r, Nat.add_0_r.
  - simpl. destruct (e <? List.length text) eqn:Hlt.
    + apply Nat.ltb_lt in Hlt.
      destruct (nth_error text e) as [c|] eqn:Hc.
      * rewrite (nth_error_skipn_cons _ _ _ Hc). simpl.
        destruct (test regex c).
        -- rewrite IH by lia. simpl. rewrite <- app_assoc. simpl.
           f_equal. lia.
        -- simpl. now rewrite app_nil_r, Nat.add_0_r.
      * apply nth_error_None in Hc. lia.
    + apply Nat.ltb_ge in Hlt. rewrite skipn_nil_of_le by lia. simpl.
      now rewrite app_nil_r, Nat.add_0_r.
Qed.

(** More fuel than the loop needs changes nothing. *)
Lemma whileLoop_fuel regex text fuel fuel' value e :
  List.length text - e <= fuel -> List.length text - e <= fuel' ->
  whileLoop fuel regex text (List.length text) value e
  = whileLoop fuel' regex text (List.length text) value e.
Proof. intros H H'. now rewrite !whileLoop_spec. Qed.

(** ** One turn of the scan *)

Lemma firstMatch_matches rules c rule :
  firstMatch rules c = Some rule -> In rule rules /\ matches c rule = true.
Proof. apply find_some. Qed.

Lemma captured_cons rule text cursor c :
  nth_error text cursor = Some c ->
  matches c rule = true ->
  captured rule text cursor
  = c :: (if Index.Rule.shouldCaptureGroup rule
          then takeWhile (test (Index.Rule.regex rule)) (skipn (S cursor) text)
          else []).
Proof.
  intros Hc Hm. unfold captured, matches in *.
  rewrite (nth_error_skipn_cons _ _ _ Hc).
  destruct (Index.Rule.shouldCaptureGroup rule); simpl; [|reflexivity].
  now rewrite Hm.
Qed.

Lemma captured_length_pos rule text cursor c :
  nth_error text cursor = Some c ->
  matches c rule = true ->
  1 <= List.length (captured rule text cursor).
Proof. intros Hc Hm. rewrite (captured_cons _ _ _ _ Hc Hm). simpl. lia. Qed.

Lemma captured_firstn rule text cursor :
  captured rule text cursor
  = firstn (List.length (captured rule text cursor)) (skipn cursor text).
Proof.
  unfold captured. destruct (Index.Rule.shouldCaptureGroup rule).
  - apply takeWhile_firstn.
  - destruct (skipn cursor text) as [|x l]; reflexivity.
Qed.

Lemma captured_bound rule text cursor :
  cursor + List.length (captured rule text cursor)
  <= Nat.max cursor (List.length text).
Proof.
  rewrite captured_firstn, length_firstn, length_skipn. lia.
Qed.

Lemma forOf_spec rules text cursor c toks :
  nth_error text cursor = Some c ->
  Index.Tokenizer.forOf rules text (List.length text) c cursor toks
  = match firstMatch rules c with
    | None => (cursor, toks)
    | Some rule =>
        (cursor + List.length (captured rule text cursor) - 1,
         toks ++ [tokenAt rule text cursor (List.length toks)])
    end.
Proof.
  intros Hc. unfold firstMatch.
  induction rules as [|rule rest IH]; simpl; [reflexivity|].
  fold (matches c rule). destruct (matches c rule) eqn:Hm; [|exact IH].
  unfold tokenAt. rewrite (captured_cons _ _ _ _ Hc Hm).
  destruct (Index.Rule.shouldCaptureGroup rule).
  - rewrite whileLoop_spec by lia. rewrite Nat.add_1_r.
    set (w := takeWhile _ (skipn (S cursor) text)).
    cbn [List.length app].
    replace (cursor + S (List.length w)) with (S cursor + List.length w) by lia.
    reflexivity.
  - cbn [List.length]. rewrite Nat.add_sub. reflexivity.
Qed.

(** ** The scan: fuel, frame and the invariant rule *)

(** From a first match [Hf] at the unit read by [Hc]: the rule accepts the
    unit and captures at least that unit. *)
Ltac first_match Hf Hc :=
  let Hin := fresh "Hin" in
  let Hm := fresh "Hm" in
  let Hpos := fresh "Hpos" in
  destruct (firstMatch_matches _ _ _ Hf) as [Hin Hm];
  pose proof (captured_length_pos _ _ _ _ Hc Hm) as Hpos.

Section Scan.
Variable rules : list Index.Rule.Rule.
Variable text : JsString.

(** One turn of the outer scan rules text, unfolded. *)
Lemma forLoop_turn fuel cursor toks c :
  nth_error text cursor = Some c ->
  scan rules text (S fuel) cursor toks
  = match firstMatch rules c with
    | None => scan rules text fuel (S cursor) toks
    | Some rule =>
        scan rules text fuel (cursor + List.length (captured rule text cursor))
             (toks ++ [tokenAt rule text cursor (List.length toks)])
    end.
Proof.
  intros Hc. unfold scan. simpl.
  assert (Hlt : cursor < List.length text)
    by (apply nth_error_Some; congruence).
  apply Nat.ltb_lt in Hlt. rewrite Hlt, Hc.
  unfold Index.Tokenizer.bind, Index.Tokenizer._rules. simpl.
  rewrite (forOf_spec _ _ _ _ _ Hc).
  destruct (firstMatch rules c) as [rule|] eqn:Hf; [|reflexivity].
  first_match Hf Hc.
  replace (S (cursor + List.length (captured rule text cursor) - 1))
    with (cursor + List.length (captured rule text cursor)) by lia.
  reflexivity.
Qed.

Lemma forLoop_done fuel cursor toks :
  List.length text <= cursor ->
  scan rules text fuel cursor toks = (toks, Index.Tokenizer.mk rules).
Proof.
  intros Hge. unfold scan. destruct fuel; simpl; [reflexivity|].
  apply Nat.ltb_ge in Hge. now rewrite Hge.
Qed.

(** The invariant rule of the scan: a property of the cursor and the
    tokens that survives a passed-over unit and an emitted token holds,
    at the end of the text, of the tokens returned; and the object is
    left as it was. *)
Lemma forLoop_invariant (I : nat -> list Token.Token -> Prop) :
  (forall cursor toks c,
      nth_error text cursor = Some c ->
      firstMatch rules c = None ->
      I cursor toks -> I (S cursor) toks) ->
  (forall cursor toks c rule,
      nth_error text cursor = Some c ->
      firstMatch rules c = Some rule ->
      I cursor toks ->
      I (cursor + List.length (captured rule text cursor))
        (toks ++ [tokenAt rule text cursor (List.length toks)])) ->
  forall fuel cursor toks,
    List.length text - cursor <= fuel ->
    cursor <= List.length text ->
    I cursor toks ->
    I (List.length text) (fst (scan rules text fuel cursor toks))
    /\ snd (scan rules text fuel cursor toks) = Index.Tokenizer.mk rules.
Proof.
  intros Hdrop Hemit.
  induction fuel as [|fuel IH]; intros cursor toks Hfuel Hle HI.
  - rewrite forLoop_done by lia. simpl.
    replace (List.length text) with cursor by lia. now split.
  - destruct (nth_error text cursor) as [c|] eqn:Hc.
    + assert (Hlt : cursor < List.length text)
        by (apply nth_error_Some; congruence).
      rewrite (forLoop_turn _ _ _ _ Hc).
      destruct (firstMatch rules c) as [rule|] eqn:Hf.
      * first_match Hf Hc.
        pose proof (captured_bound rule text cursor).
        apply IH; [lia | lia |].
        now apply Hemit with c.
      * apply IH; [lia | lia |]. now apply Hdrop with c.
    + apply nth_error_None in Hc.
      rewrite forLoop_done by lia. simpl.
      replace (List.length text) with cursor by lia. now split.
Qed.

(** More fuel than the scan needs changes nothing. *)
Lemma forLoop_fuel :
  forall fuel fuel' cursor toks,
    List.length text - cursor <= fuel ->
    List.length text - cursor <= fuel' ->
    scan rules text fuel cursor toks = scan rules text fuel' cursor toks.
Proof.
  induction fuel as [|fuel IH]; intros fuel' cursor toks H H'.
  - rewrite !forLoop_done by lia. reflexivity.
  - destruct fuel' as [|fuel'].
    + rewrite !forLoop_done by lia. reflexivity.
    + destruct (nth_error text cursor) as [c|] eqn:Hc.
      * assert (Hlt : cursor < List.length text)
          by (apply nth_error_Some; congruence).
        rewrite !(forLoop_turn _ _ _ _ Hc).
        destruct (firstMatch rules c) as [rule|] eqn:Hf.
        -- first_match Hf Hc.
           apply IH; lia.
        -- apply IH; lia.
      * apply nth_error_None in Hc.
        rewrite !forLoop_done by lia. reflexivity.
Qed.

(** The invariant rule, for the tokens of the whole text. *)
Lemma tokens_invariant (I : nat -> list Token.Token -> Prop) :
  (forall cursor toks c,
      nth_error text cursor = Some c ->
      firstMatch rules c = None ->
      I cursor toks -> I (S cursor) toks) ->
  (forall cursor toks c rule,
      nth_error text cursor = Some c ->
      firstMatch rules c = Some rule ->
      I cursor toks ->
      I (cursor + List.length (captured rule text cursor))
        (toks ++ [tokenAt rule text cursor (List.length toks)])) ->
  I 0 [] ->
  I (List.length text) (tokens rules text).
Proof.
  intros Hdrop Hemit H0. unfold tokens, Index.Tokenizer.tokenize. simpl.
  apply (forLoop_invariant I Hdrop Hemit); [lia | lia | exact H0].
Qed.
End Scan.

(** ** What the scan emits *)

Lemma firstn_plus {A} (l : list A) a b :
  firstn (a + b) l = firstn a l ++ firstn b (skipn a l).
Proof.
  revert l; induction a as [|a IH]; intros [|x l]; simpl;
    try reflexivity.
  - now rewrite firstn_nil.
  - now rewrite IH.
Qed.

Lemma firstMatch_none rules c :
  firstMatch rules c = None <-> anyMatch rules c = false.
Proof.
  unfold firstMatch, anyMatch.
  induction rules as [|rule rest IH]; simpl; [tauto|].
  destruct (matches c rule); simpl; [split; discriminate | exact IH].
Qed.

(** Every unit a first-matching rule captures is accepted by that rule. *)
Lemma captured_all rule text cursor c :
  nth_error text cursor = Some c ->
  matches c rule = true ->
  Forall (fun x => matches x rule = true) (captured rule text cursor).
Proof.
  intros Hc Hm. unfold captured.
  destruct (Index.Rule.shouldCaptureGroup rule).
  - apply takeWhile_all.
  - rewrite (nth_error_skipn_cons _ _ _ Hc). simpl. now repeat constructor.
Qed.

Lemma tokens_emitted rules text :
  Forall (emitted rules text) (tokens rules text).
Proof.
  apply (tokens_invariant rules text
           (fun _ toks => Forall (emitted rules text) toks)).
  - intros; assumption.
  - intros cursor toks c rule Hc Hf HI.
    apply Forall_app; split; [exact HI|].
    constructor; [|constructor].
    exists c, rule. now repeat split.
  - constructor.
Qed.

Lemma tokens_indices rules text :
  map Token.index (tokens rules text)
  = seq 0 (List.length (tokens rules text)).
Proof.
  apply (tokens_invariant rules text
           (fun _ toks => map Token.index toks = seq 0 (List.length toks))).
  - intros; assumption.
  - intros cursor toks c rule _ _ HI.
    rewrite map_app, length_app, HI. simpl.
    now rewrite Nat.add_1_r, seq_S.
  - reflexivity.
Qed.

Lemma tokens_values rules text :
  List.concat (map Token.value (tokens rules text))
  = filter (anyMatch rules) text.
Proof.
  rewrite <- (firstn_all text) at 2.
  apply (tokens_invariant rules text
           (fun cursor toks =>
              List.concat (map Token.value toks)
              = filter (anyMatch rules) (firstn cursor text))).
  - intros cursor toks c Hc Hf HI.
    apply firstMatch_none in Hf.
    rewrite <- Nat.add_1_r, firstn_plus, filter_app, <- HI.
    rewrite (nth_error_skipn_cons _ _ _ Hc). simpl.
    now rewrite Hf, app_nil_r.
  - intros cursor toks c rule Hc Hf HI.
    apply firstMatch_matches in Hf. destruct Hf as [Hin Hm].
    rewrite firstn_plus, filter_app, <- HI, <- captured_firstn.
    rewrite map_app, List.concat_app. simpl. rewrite app_nil_r. f_equal.
    symmetry. apply forallb_filter_id. apply forallb_forall.
    intros x Hx. unfold anyMatch. apply existsb_exists. exists rule.
    split; [exact Hin|].
    pose proof (captured_all rule text cursor c Hc Hm) as Hall.
    rewrite Forall_forall in Hall. now apply Hall.
  - reflexivity.
Qed.

Lemma chain_drop rules text toks :
  forall from upto,
    chain rules text from toks upto ->
    dropped rules text upto ->
    chain rules text from toks (S upto).
Proof.
  induction toks as [|tok rest IH]; intros from upto H Hd; simpl in *.
  - destruct H as [Hle Hall]. split; [lia|].
    intros k Hk. destruct (Nat.eq_dec k upto) as [->|Hne]; [exact Hd|].
    apply Hall. lia.
  - destruct H as (H1 & H2 & H3 & H4). repeat split; try assumption.
    now apply IH.
Qed.

Lemma chain_emit rules text toks tok :
  forall from,
    chain rules text from toks (start tok) ->
    start tok < end_ tok ->
    chain rules text from (toks ++ [tok]) (end_ tok).
Proof.
  induction toks as [|tok' rest IH]; intros from H Hlt; simpl in *.
  - destruct H as [Hle Hall]. repeat split; try assumption; lia.
  - destruct H as (H1 & H2 & H3 & H4). repeat split; try assumption.
    now apply IH.
Qed.

Lemma tokens_chain rules text :
  chain rules text 0 (tokens rules text) (List.length text).
Proof.
  apply (tokens_invariant rules text
           (fun cursor toks => chain rules text 0 toks cursor)).
  - intros cursor toks c Hc Hf HI. apply chain_drop; [exact HI|].
    exists c. split; [exact Hc|]. now apply firstMatch_none.
  - intros cursor toks c rule Hc Hf HI.
    apply firstMatch_matches in Hf. destruct Hf as [_ Hm].
    pose proof (captured_length_pos _ _ _ _ Hc Hm) as Hpos.
    set (tok := tokenAt rule text cursor (List.length toks)).
    change (cursor + List.length (captured rule text cursor)) with (end_ tok).
    apply chain_emit; [exact HI|].
    unfold tok, start, end_, tokenAt; simpl. lia.
  - simpl. split; [lia|]. intros k Hk. lia.
Qed.

(** What [chain] says of two neighbours and of the first token. *)
Lemma chain_neighbours rules text toks :
  forall from upto i a b,
    chain rules text from toks upto ->
    nth_error toks i = Some a ->
    nth_error toks (S i) = Some b ->
    start a < end_ a /\ end_ a <= start b /\ start b < end_ b /\
    forall k, end_ a <= k < start b -> dropped rules text k.
Proof.
  induction toks as [|tok rest IH]; intros from upto i a b H Ha Hb.
  - destruct i; discriminate.
  - simpl in H. destruct H as (H1 & H2 & H3 & H4).
    destruct i as [|i]; simpl in Ha, Hb.
    + inversion Ha; subst a.
      destruct rest as [|tok' rest']; [discriminate|].
      simpl in Hb. inversion Hb; subst b.
      simpl in H4. destruct H4 as (K1 & K2 & K3 & _).
      repeat split; assumption.
    + now apply (IH (end_ tok) upto i a b).
Qed.

Lemma firstMatch_app pre rule post c :
  forallb (fun r => negb (matches c r)) pre = true ->
  matches c rule = true ->
  firstMatch (pre ++ rule :: post) c = Some rule.
Proof.
  unfold firstMatch. intros Hpre Hm.
  induction pre as [|r pre IH]; simpl in *.
  - now rewrite Hm.
  - apply andb_true_iff in Hpre. destruct Hpre as [Hr Hpre].
    apply negb_true_iff in Hr. rewrite Hr. now apply IH.
Qed.

(** Only the first match at each unit counts: two rule lists that agree on
    it yield the same turns, hence the same tokens. *)
Lemma forLoop_firstMatch_ext rules rules' text :
  (forall c, firstMatch rules c = firstMatch rules' c) ->
  forall fuel cursor toks,
    fst (scan rules text fuel cursor toks)
    = fst (scan rules' text fuel cursor toks).
Proof.
  intros Hext. induction fuel as [|fuel IH]; intros cursor toks;
    [reflexivity|].
  destruct (nth_error text cursor) as [c|] eqn:Hc.
  - rewrite !(forLoop_turn _ _ _ _ _ _ Hc), <- Hext.
    destruct (firstMatch rules c); apply IH.
  - apply nth_error_None in Hc. now rewrite !forLoop_done by lia.
Qed.

Lemma tokens_firstMatch_ext rules rules' text :
  (forall c, firstMatch rules c = firstMatch rules' c) ->
  tokens rules text = tokens rules' text.
Proof.
  intros Hext. unfold tokens, Index.Tokenizer.tokenize. simpl.
  now apply forLoop_firstMatch_ext.
Qed.

(** The units of an emitted token are units of the text that its rule
    accepts. *)
Lemma emitted_span rules text tok :
  emitted rules text tok ->
  start tok < end_ tok /\ end_ tok <= List.length text /\
  Token.value tok = substring text (start tok) (end_ tok) /\
  List.length (Token.value tok) = end_ tok - start tok.
Proof.
  intros (c & rule & Hc & Hf & Htok).
  apply firstMatch_matches in Hf. destruct Hf as [_ Hm].
  pose proof (captured_length_pos _ _ _ _ Hc Hm) as Hpos.
  pose proof (captured_bound rule text (start tok)) as Hb.
  assert (Hlt : start tok < List.length text)
    by (apply nth_error_Some; congruence).
  set (s := start tok) in *.
  assert (He : end_ tok = s + List.length (captured rule text s))
    by (rewrite Htok; reflexivity).
  assert (Hv : Token.value tok = captured rule text s)
    by (rewrite Htok; reflexivity).
  rewrite He, Hv. unfold substring.
  replace (s + List.length (captured rule text s) - s)
    with (List.length (captured rule text s)) by lia.
  repeat split; try lia. apply captured_firstn.
Qed.

Lemma emitted_matched rules text tok k c :
  emitted rules text tok ->
  start tok <= k < end_ tok ->
  nth_error text k = Some c ->
  anyMatch rules c = true.
Proof.
  intros (c0 & rule & Hc0 & Hf & Htok) Hk Hc.
  apply firstMatch_matches in Hf. destruct Hf as [Hin Hm].
  pose proof (captured_all rule text (start tok) c0 Hc0 Hm) as Hall.
  set (s := start tok) in *.
  assert (He : end_ tok = s + List.length (captured rule text s))
    by (rewrite Htok; reflexivity).
  assert (Hnth : nth_error (captured rule text s) (k - s) = Some c).
  { rewrite captured_firstn, nth_error_firstn.
    destruct (Nat.ltb_spec (k - s) (List.length (captured rule text s)));
      [|lia].
    rewrite nth_error_skipn. now replace (s + (k - s)) with k by lia. }
  apply nth_error_In in Hnth. rewrite Forall_forall in Hall.
  unfold anyMatch. apply existsb_exists. exists rule. split; auto.
Qed.

Lemma chain_cover rules text toks :
  forall from upto k,
    chain rules text from toks upto ->
    from <= k < upto ->
    dropped rules text k \/ covered toks k.
Proof.
  induction toks as [|tok rest IH]; intros from upto k H Hk; simpl in H.
  - left. now apply H.
  - destruct H as (H1 & H2 & H3 & H4).
    destruct (Nat.lt_ge_cases k (start tok)) as [Hlt|Hge].
    + left. apply H2. lia.
    + destruct (Nat.lt_ge_cases k (end_ tok)) as [Hin|Hout].
      * right. exists tok. split; [now left | lia].
      * destruct (IH _ _ k H4) as [Hd|(t & Ht & Hs)]; [lia | now left |].
        right. exists t. split; [now right | exact Hs].
Qed.

Lemma tokens_covered rules text k c :
  nth_error text k = Some c ->
  covered (tokens rules text) k <-> anyMatch rules c = true.
Proof.
  intros Hc. split.
  - intros (tok & Hin & Hk).
    pose proof (tokens_emitted rules text) as Hall.
    rewrite Forall_forall in Hall.
    exact (emitted_matched _ _ _ _ _ (Hall _ Hin) Hk Hc).
  - intros Hm.
    assert (Hlt : k < List.length text) by (apply nth_error_Some; congruence).
    destruct (chain_cover _ _ _ _ _ k (tokens_chain rules text))
      as [(c' & Hc' & Hd)|Hcov]; [lia | | exact Hcov].
    congruence.
Qed.

(** ** The claims on the scan *)

(** C1.  The values of the tokens, concatenated in the order of emission,
    are the units of the input that some rule accepts, in their original
    order; these are exactly the units that lie inside a token.  A unit at
    the cursor that no rule accepts adds no token and moves the cursor by
    one, and the scan goes on. *)
Theorem tokenize_values_are_matched_units rules text :
  List.concat (map Token.value (tokens rules text))
  = filter (anyMatch rules) text
  /\ (forall k c,
         nth_error text k = Some c ->
         covered (tokens rules text) k <-> anyMatch rules c = true)
  /\ (forall fuel cursor c toks,
         nth_error text cursor = Some c ->
         anyMatch rules c = false ->
         scan rules text (S fuel) cursor toks
         = scan rules text fuel (S cursor) toks).
Proof.
  split; [apply tokens_values|]. split; [apply tokens_covered|].
  intros fuel cursor c toks Hc Hm.
  rewrite (forLoop_turn _ _ _ _ _ _ Hc).
  apply firstMatch_none in Hm. now rewrite Hm.
Qed.

Lemma tokenize_values_are_matched_units_witness :
  scan [periodRule] (js "a.b.") 4 0 [] = scan [periodRule] (js "a.b.") 3 1 [].
Proof.
  apply (proj2 (proj2 (tokenize_values_are_matched_units
                         [periodRule] (js "a.b."))) 3 0 97%N []);
    reflexivity.
Defined.

(** C2.  At a cursor whose unit is accepted by some rule, the turn is
    decided by the first such rule of the list alone: the rules before it
    did not match, the rules after it are not looked at, and the token pushed
    has that rule's type, value and span.  So every token returned starts at
    a unit whose first matching rule gives the token its type, and two rule
    lists with the same first match at every unit tokenize alike. *)
Theorem first_matching_rule_wins text :
  (forall pre rule post cursor c toks,
      nth_error text cursor = Some c ->
      forallb (fun r => negb (matches c r)) pre = true ->
      matches c rule = true ->
      Index.Tokenizer.forOf (pre ++ rule :: post) text (List.length text)
        c cursor toks
      = (cursor + List.length (captured rule text cursor) - 1,
         toks ++ [tokenAt rule text cursor (List.length toks)]))
  /\ (forall rules,
         Forall (fun tok =>
                   exists c rule,
                     nth_error text (start tok) = Some c /\
                     firstMatch rules c = Some rule /\
                     Token.type tok = Index.Rule.type rule /\
                     Token.value tok = captured rule text (start tok))
                (tokens rules text))
  /\ (forall rules rules',
         (forall c, firstMatch rules c = firstMatch rules' c) ->
         tokens rules text = tokens rules' text).
Proof.
  split; [|split].
  - intros pre rule post cursor c toks Hc Hpre Hm.
    rewrite (forOf_spec _ _ _ _ _ Hc), (firstMatch_app _ _ _ _ Hpre Hm).
    reflexivity.
  - intros rules. eapply Forall_impl; [|apply tokens_emitted].
    intros tok (c & rule & Hc & Hf & Htok).
    exists c, rule. repeat split; try assumption; rewrite Htok; reflexivity.
  - intros rules rules'. apply tokens_firstMatch_ext.
Qed.

Lemma first_matching_rule_wins_witness :
  Index.Tokenizer.forOf
    ([periodRule] ++ lettersRule :: [lettersRule; periodRule])
    (js "ab.") 3 97%N 0 []
  = (1, [Token.new 0 "letters" (js "ab") (0, 2)]).
Proof.
  apply (proj1 (first_matching_rule_wins (js "ab."))
           [periodRule] lettersRule [lettersRule; periodRule] 0 97%N []);
    reflexivity.
Defined.

Lemma scan_extends rules text :
  forall fuel cursor toks,
    exists rest, fst (scan rules text fuel cursor toks) = toks ++ rest.
Proof.
  induction fuel as [|fuel IH]; intros cursor toks.
  - exists []. simpl. now rewrite app_nil_r.
  - destruct (nth_error text cursor) as [c|] eqn:Hc.
    + rewrite (forLoop_turn _ _ _ _ _ _ Hc).
      destruct (firstMatch rules c) as [rule|]; [|apply IH].
      destruct (IH (cursor + List.length (captured rule text cursor))
                   (toks ++ [tokenAt rule text cursor (List.length toks)]))
        as [rest Hrest].
      exists (tokenAt rule text cursor (List.length toks) :: rest).
      rewrite Hrest, <- app_assoc. reflexivity.
    + apply nth_error_None in Hc. rewrite forLoop_done by exact Hc.
      exists []. simpl. now rewrite app_nil_r.
Qed.

(** C3.  When a group rule is the first match at the cursor, the token it
    yields covers the longest run of units from the cursor on that this
    same rule accepts: the run is not empty, it is the substring from the
    cursor to its end, all its units are accepted, and it ends at the end of
    the text or right before a unit the rule refuses.  The inner loop,
    entered after the cursor with the first unit as value, returns this run
    and its end; the rule loop pushes one token with the whole run and the
    span from the cursor to the cursor plus the length of the run, and
    leaves the cursor on the last unit of the run; the scan resumes at the
    end of the run, keeps the token among those it returns, and every
    returned token that starts at this cursor is this token. *)
Theorem group_rule_captures_maximal_run rules text cursor c rule :
  nth_error text cursor = Some c ->
  firstMatch rules c = Some rule ->
  Index.Rule.shouldCaptureGroup rule = true ->
  let run := takeWhile (test (Index.Rule.regex rule)) (skipn cursor text) in
  let e := cursor + List.length run in
  1 <= List.length run
  /\ e <= List.length text
  /\ run = substring text cursor e
  /\ Forall (fun x => test (Index.Rule.regex rule) x = true) run
  /\ (forall x, nth_error text e = Some x ->
                test (Index.Rule.regex rule) x = false)
  /\ (forall fuel toks,
         scan rules text (S fuel) cursor toks
         = scan rules text fuel e
             (toks ++ [Token.new (List.length toks) (Index.Rule.type rule)
                         run (cursor, e)]))
  /\ whileLoop (List.length text - (cursor + 1)) (Index.Rule.regex rule)
       text (List.length text) [c] (cursor + 1)
     = (run, e)
  /\ (forall toks,
         Index.Tokenizer.forOf rules text (List.length text) c cursor toks
         = (e - 1,
            toks ++ [Token.new (List.length toks) (Index.Rule.type rule)
                       run (cursor, e)]))
  /\ (forall fuel toks,
         exists rest,
           fst (scan rules text (S fuel) cursor toks)
           = toks ++ Token.new (List.length toks) (Index.Rule.type rule)
                       run (cursor, e) :: rest)
  /\ (forall tok,
         In tok (tokens rules text) ->
         start tok = cursor ->
         tok = Token.new (Token.index tok) (Index.Rule.type rule) run
                 (cursor, e)).
Proof.
  intros Hc Hf Hg run e.
  assert (Hrun : captured rule text cursor = run)
    by (unfold captured; now rewrite Hg).
  pose proof (firstMatch_matches _ _ _ Hf) as [_ Hm].
  pose proof (captured_length_pos _ _ _ _ Hc Hm) as Hpos.
  pose proof (captured_bound rule text cursor) as Hb.
  assert (Hlt : cursor < List.length text)
    by (apply nth_error_Some; congruence).
  rewrite Hrun in Hpos, Hb.
  assert (Hturn : forall fuel toks,
             scan rules text (S fuel) cursor toks
             = scan rules text fuel e
                 (toks ++ [Token.new (List.length toks)
                             (Index.Rule.type rule) run (cursor, e)])).
  { intros fuel toks. rewrite (forLoop_turn _ _ _ _ _ _ Hc), Hf.
    unfold tokenAt. now rewrite Hrun. }
  repeat split.
  - exact Hpos.
  - unfold e. lia.
  - unfold substring, e.
    replace (cursor + List.length run - cursor) with (List.length run) by lia.
    apply takeWhile_firstn.
  - apply takeWhile_all.
  - intros x Hx. unfold e in Hx.
    rewrite <- nth_error_skipn in Hx.
    exact (takeWhile_stop _ _ _ Hx).
  - exact Hturn.
  - rewrite whileLoop_spec by lia. unfold e, run.
    rewrite (nth_error_skipn_cons _ _ _ Hc). simpl takeWhile.
    unfold matches in Hm. rewrite Hm, Nat.add_1_r. simpl. f_equal. lia.
  - intros toks. rewrite (forOf_spec _ _ _ _ _ Hc), Hf.
    unfold tokenAt. now rewrite Hrun.
  - intros fuel toks. rewrite Hturn.
    destruct (scan_extends rules text fuel e
                (toks ++ [Token.new (List.length toks)
                            (Index.Rule.type rule) run (cursor, e)]))
      as [rest Hrest].
    exists rest. rewrite Hrest, <- app_assoc. reflexivity.
  - intros tok Hin Hstart.
    pose proof (tokens_emitted rules text) as Hall.
    rewrite Forall_forall in Hall.
    destruct (Hall tok Hin) as (c' & rule' & Hc' & Hf' & Htok).
    rewrite Hstart in Hc', Htok.
    assert (c' = c) by congruence. subst c'.
    assert (rule' = rule) by congruence. subst rule'.
    rewrite Htok at 1. unfold tokenAt. now rewrite Hrun.
Qed.

Lemma group_rule_captures_maximal_run_witness :
  let run := takeWhile (test (Index.Rule.regex lettersRule))
                       (skipn 1 (js ".ab.")) in
  run = js "ab"
  /\ whileLoop 2 (Index.Rule.regex lettersRule) (js ".ab.") 4 (js "a") 2
     = (js "ab", 3)
  /\ Index.Tokenizer.forOf [periodRule; lettersRule] (js ".ab.") 4 97%N 1
       [Token.new 0 "period" (js ".") (0, 1)]
     = (2, [Token.new 0 "period" (js ".") (0, 1);
            Token.new 1 "letters" (js "ab") (1, 3)])
  /\ scan [periodRule; lettersRule] (js ".ab.") 3 1
          [Token.new 0 "period" (js ".") (0, 1)]
     = scan [periodRule; lettersRule] (js ".ab.") 2 3
         [Token.new 0 "period" (js ".") (0, 1);
          Token.new 1 "letters" (js "ab") (1, 3)].
Proof.
  pose proof (group_rule_captures_maximal_run
                [periodRule; lettersRule] (js ".ab.") 1 97%N lettersRule
                eq_refl eq_refl eq_refl)
    as (_ & _ & _ & _ & _ & Hturn & Hwhile & Hfor & _).
  split; [reflexivity|]. split; [exact Hwhile|].
  split; [exact (Hfor [Token.new 0 "period" (js ".") (0, 1)])|].
  exact (Hturn 2 [Token.new 0 "period" (js ".") (0, 1)]).
Defined.

(** C4, as stated, fails: with the single rule [period] the text [a.b.]
    yields two tokens with spans [1,2) and [3,4); the first does not start
    at 0 and does not end where the second starts. *)
Lemma contiguity_counterexample :
  tokens [periodRule] (js "a.b.")
  = [Token.new 0 "period" (js ".") (1, 2);
     Token.new 1 "period" (js ".") (3, 4)]
  /\ ~ contiguous (tokens [periodRule] (js "a.b."))
  /\ ~ startsAtZero (tokens [periodRule] (js "a.b.")).
Proof.
  split; [reflexivity|]. split.
  - intros H.
    specialize (H 0 (Token.new 0 "period" (js ".") (1, 2))
                  (Token.new 1 "period" (js ".") (3, 4))
                  eq_refl eq_refl).
    discriminate H.
  - intros H.
    specialize (H (Token.new 0 "period" (js ".") (1, 2)) eq_refl).
    discriminate H.
Qed.

(** C4, amended.  A token never starts before its predecessor ends, and the
    units between the two, like the units before the first token, are units
    that no rule accepts; the values concatenated are the accepted units of
    the input.  When every unit of the input is accepted by some rule, each
    token ends where the next one starts, the first token starts at 0 and
    the values concatenated are the whole input. *)
Theorem contiguous_up_to_dropped_units rules text :
  (forall i a b,
      nth_error (tokens rules text) i = Some a ->
      nth_error (tokens rules text) (S i) = Some b ->
      end_ a <= start b
      /\ forall k, end_ a <= k < start b -> dropped rules text k)
  /\ (forall a,
         nth_error (tokens rules text) 0 = Some a ->
         forall k, k < start a -> dropped rules text k)
  /\ List.concat (map Token.value (tokens rules text))
     = filter (anyMatch rules) text
  /\ (forallb (anyMatch rules) text = true ->
      contiguous (tokens rules text)
      /\ startsAtZero (tokens rules text)
      /\ List.concat (map Token.value (tokens rules text)) = text).
Proof.
  pose proof (tokens_chain rules text) as Hchain.
  assert (Hgap : forall i a b,
             nth_error (tokens rules text) i = Some a ->
             nth_error (tokens rules text) (S i) = Some b ->
             end_ a <= start b
             /\ forall k, end_ a <= k < start b -> dropped rules text k).
  { intros i a b Ha Hb.
    destruct (chain_neighbours _ _ _ _ _ _ _ _ Hchain Ha Hb)
      as (_ & H1 & _ & H2).
    now split. }
  assert (Hhead : forall a,
             nth_error (tokens rules text) 0 = Some a ->
             forall k, k < start a -> dropped rules text k).
  { intros a Ha k Hk.
    destruct (tokens rules text) as [|tok rest]; [discriminate|].
    simpl in Ha. inversion Ha; subst a.
    simpl in Hchain. destruct Hchain as (_ & H & _). apply H. lia. }
  repeat split; try assumption; try apply tokens_values.
  - now apply (Hgap i a b).
  - intros k Hk. now apply (proj2 (Hgap i a b H H0)).
  - intros i a b Ha Hb. destruct (Hgap i a b Ha Hb) as [Hle Hd].
    destruct (Nat.eq_dec (end_ a) (start b)) as [E|NE]; [exact E|].
    destruct (Hd (end_ a)) as (c & Hc & Hm); [lia|].
    rewrite forallb_forall in H.
    rewrite (H c (nth_error_In _ _ Hc)) in Hm. discriminate.
  - intros a Ha.
    destruct (Nat.eq_dec (start a) 0) as [E|NE]; [exact E|].
    destruct (Hhead a Ha 0) as (c & Hc & Hm); [lia|].
    rewrite forallb_forall in H.
    rewrite (H c (nth_error_In _ _ Hc)) in Hm. discriminate.
  - rewrite tokens_values. now apply forallb_filter_id.
Qed.

Lemma contiguous_up_to_dropped_units_witness :
  contiguous (tokens [lettersRule; periodRule] (js "ab.c"))
  /\ startsAtZero (tokens [lettersRule; periodRule] (js "ab.c"))
  /\ List.concat
       (map Token.value (tokens [lettersRule; periodRule] (js "ab.c")))
     = js "ab.c".
Proof.
  apply (proj2 (proj2 (proj2 (contiguous_up_to_dropped_units
                                [lettersRule; periodRule] (js "ab.c"))))).
  reflexivity.
Defined.

(** C5.  The tokens returned carry the indices 0, 1, ..., N-1 in the order
    of emission.  Their spans are non-empty, do not overlap and move
    forward: a token ends no later than the next one starts; and when no
    dropped unit lies between two neighbours, the first ends exactly where
    the second starts. *)
Theorem indices_sequential_spans_ordered rules text :
  map Token.index (tokens rules text)
  = seq 0 (List.length (tokens rules text))
  /\ (forall i a,
         nth_error (tokens rules text) i = Some a -> Token.index a = i)
  /\ (forall i a b,
         nth_error (tokens rules text) i = Some a ->
         nth_error (tokens rules text) (S i) = Some b ->
         start a < end_ a /\ end_ a <= start b /\ start b < end_ b
         /\ ((forall k, end_ a <= k < start b -> ~ dropped rules text k) ->
             end_ a = start b)).
Proof.
  split; [apply tokens_indices|]. split.
  - intros i a Ha.
    pose proof (map_nth_error Token.index _ _ Ha) as Hi.
    rewrite tokens_indices in Hi.
    assert (Hlt : i < List.length (tokens rules text))
      by (apply nth_error_Some; congruence).
    rewrite (nth_error_nth' _ 0) in Hi by (now rewrite length_seq).
    rewrite seq_nth in Hi by exact Hlt. simpl in Hi. now inversion Hi.
  - intros i a b Ha Hb.
    destruct (chain_neighbours _ _ _ _ _ _ _ _ (tokens_chain rules text) Ha Hb)
      as (H1 & H2 & H3 & H4).
    repeat split; try assumption.
    intros Hnone.
    destruct (Nat.eq_dec (end_ a) (start b)) as [E|NE]; [exact E|].
    exfalso. apply (Hnone (end_ a)); [lia|]. apply H4. lia.
Qed.

Lemma indices_sequential_spans_ordered_witness :
  Token.index (Token.new 1 "period" (js ".") (2, 3)) = 1
  /\ end_ (Token.new 0 "letters" (js "ab") (0, 2))
     = start (Token.new 1 "period" (js ".") (2, 3)).
Proof.
  pose proof (indices_sequential_spans_ordered
                [lettersRule; periodRule] (js "ab.c"))
    as (_ & Hidx & Hspan).
  split.
  - exact (Hidx 1 (Token.new 1 "period" (js ".") (2, 3)) eq_refl).
  - destruct (Hspan 0 (Token.new 0 "letters" (js "ab") (0, 2))
                (Token.new 1 "period" (js ".") (2, 3)) eq_refl eq_refl)
      as (_ & _ & _ & Hmeet).
    apply Hmeet. intros k Hk. unfold start, end_ in Hk. simpl in Hk. lia.
Defined.

(** C9.  The span of every token returned lies within the input and is not
    empty: [0 <= start < end <= text.length]; the value has [end - start]
    units and is the substring of the input from [start] to [end].  No
    token has width zero. *)
Theorem spans_within_input rules text :
  Forall (fun tok =>
            0 <= start tok /\
            start tok < end_ tok /\
            end_ tok <= List.length text /\
            List.length (Token.value tok) = end_ tok - start tok /\
            Token.value tok = substring text (start tok) (end_ tok))
         (tokens rules text).
Proof.
  eapply Forall_impl; [|apply tokens_emitted].
  intros tok Hem. destruct (emitted_span _ _ _ Hem) as (H1 & H2 & H3 & H4).
  repeat split; try assumption. lia.
Qed.

(** [tokenize] leaves the object it runs on as it found it. *)
Lemma tokenize_frame this text :
  snd (Index.Tokenizer.tokenize text this) = this.
Proof.
  destruct this as [rules]. unfold Index.Tokenizer.tokenize.
  destruct (negb (isString text)); [reflexivity|].
  apply (forLoop_invariant rules (units text) (fun _ _ => True));
    auto; lia.
Qed.

(** With [RegExp]s that hold no state, [tokenize] leaves the object, and
    so its rule list, as it found it: the tokens of a text are the same
    before and after any other call, and two calls in a row on the same
    text return equal sequences. *)
Lemma tokenize_leaves_rules_unchanged this text :
  snd (Index.Tokenizer.tokenize text this) = this
  /\ Index.Tokenizer.r (snd (Index.Tokenizer.tokenize text this))
     = Index.Tokenizer.r this
  /\ (forall text',
         fst (Index.Tokenizer.tokenize text
                (snd (Index.Tokenizer.tokenize text' this)))
         = fst (Index.Tokenizer.tokenize text this))
  /\ fst (Index.Tokenizer.tokenize text
            (snd (Index.Tokenizer.tokenize text this)))
     = fst (Index.Tokenizer.tokenize text this).
Proof.
  repeat split.
  - apply tokenize_frame.
  - now rewrite tokenize_frame.
  - intros text'. now rewrite tokenize_frame.
  - now rewrite tokenize_frame.
Qed.

(** ** The second listing scans as the first *)

Lemma noNull_ruleObjects {A} (l : list (option A)) :
  Forall (fun rule => rule <> None) l -> l = map Some (ruleObjects l).
Proof.
  induction 1 as [|[rule|] rest Hx _ IH]; simpl.
  - reflexivity.
  - now f_equal.
  - congruence.
Qed.

Lemma filter_Boolean_noNull l :
  Forall (fun rule => rule <> None) (filter Readme.Tokenizer.Boolean l).
Proof.
  apply Forall_forall. intros [rule|] Hin; [discriminate|].
  apply filter_In in Hin. destruct Hin as [_ Hb]. discriminate Hb.
Qed.

Section Bridge.
Variable bakedRules : list Readme.TokenizerBakedRule.TokenizerBakedRule.
Variable text : JsString.
Variable size : nat.

Lemma forRules_forOf c :
  forall fuel i cursor toks,
    List.length bakedRules - i <= fuel ->
    Readme.Tokenizer.forRules fuel (List.length bakedRules) i text size c
      cursor toks (Readme.Tokenizer.mk (map Some bakedRules))
    = (inr (Index.Tokenizer.forOf (map unbake (skipn i bakedRules)) text size
              c cursor toks),
       Readme.Tokenizer.mk (map Some bakedRules)).
Proof.
  induction fuel as [|fuel IH]; intros i cursor toks Hfuel.
  - simpl. now rewrite skipn_all2 by lia.
  - simpl. destruct (i <? List.length bakedRules) eqn:Hlt.
    + apply Nat.ltb_lt in Hlt.
      unfold Readme.Tokenizer.bind, Readme.Tokenizer.rules. simpl.
      destruct (nth_error bakedRules i) as [rule|] eqn:Hi;
        [|apply nth_error_None in Hi; lia].
      rewrite (map_nth_error Some _ _ Hi).
      rewrite (nth_error_skipn_cons _ _ _ Hi). simpl.
      destruct (test (Readme.TokenizerBakedRule.regex rule) c).
      * destruct (Readme.TokenizerBakedRule.shouldCaptureMulti rule);
          [|reflexivity].
        destruct (whileLoop _ _ _ _ _ _). reflexivity.
      * apply IH. lia.
    + apply Nat.ltb_ge in Hlt. now rewrite skipn_all2 by lia.
Qed.

Lemma forLoop_forLoop :
  forall fuel cursor toks,
    Readme.Tokenizer.forLoop fuel text size (List.length bakedRules)
      cursor toks (Readme.Tokenizer.mk (map Some bakedRules))
    = (inr (fst (Index.Tokenizer.forLoop fuel text size cursor toks
                   (Index.Tokenizer.mk (map unbake bakedRules)))),
       Readme.Tokenizer.mk (map Some bakedRules)).
Proof.
  induction fuel as [|fuel IH]; intros cursor toks; [reflexivity|].
  simpl. destruct (cursor <? size); [|reflexivity].
  destruct (nth_error text cursor) as [c|]; [|reflexivity].
  unfold Readme.Tokenizer.bind at 1.
  rewrite Nat.sub_0_r, forRules_forOf by lia.
  unfold Index.Tokenizer.bind, Index.Tokenizer._rules. simpl.
  destruct (Index.Tokenizer.forOf _ _ _ _ _ _) as [cursor' toks'].
  apply IH.
Qed.
End Bridge.

(** On an object without [null] rules, [tokenize] of the second listing
    does not throw, leaves the object as it was and returns the tokens of
    the first listing under the same rules. *)
Lemma readme_tokenize_as_index this text :
  noNull this ->
  Readme.Tokenizer.tokenize text this
  = (inr (fst (Index.Tokenizer.tokenize text
                 (Index.Tokenizer.mk
                    (map unbake (ruleObjects (Readme.Tokenizer.r this)))))),
     this).
Proof.
  destruct this as [rs]. unfold noNull. simpl. intros Hnn.
  rewrite (noNull_ruleObjects _ Hnn) at 1 3.
  set (bs := ruleObjects rs).
  unfold Readme.Tokenizer.tokenize, Index.Tokenizer.tokenize.
  destruct (negb (isString text)); [reflexivity|].
  unfold Readme.Tokenizer.bind at 1, Readme.Tokenizer.rules at 1. simpl.
  rewrite length_map. apply forLoop_forLoop.
Qed.

Lemma reachable_noNull `{Unicode} this : Reachable this -> noNull this.
Proof.
  induction 1 as [rules|this rules _ _|this text _ IH].
  - apply filter_Boolean_noNull.
  - apply filter_Boolean_noNull.
  - now rewrite readme_tokenize_as_index.
Qed.

(** Every property of [tokens] is thereby a property of what the second
    listing returns, on every object a program can get hold of. *)
Lemma readme_reachable_tokens `{Unicode} this text :
  Reachable this ->
  Readme.Tokenizer.tokenize (JsStr text) this
  = (inr (tokens (map unbake (ruleObjects (Readme.Tokenizer.r this))) text),
     this).
Proof.
  intros Hr. now rewrite (readme_tokenize_as_index _ _ (reachable_noNull _ Hr)).
Qed.

Lemma tokens_no_rules text : tokens [] text = [].
Proof.
  apply (tokens_invariant [] text (fun _ toks => toks = [])).
  - intros; assumption.
  - intros cursor toks c rule _ Hf. discriminate Hf.
  - reflexivity.
Qed.

Lemma tokenize_not_a_string this text :
  isString text = false -> Index.Tokenizer.tokenize text this = ([], this).
Proof. intros H. unfold Index.Tokenizer.tokenize. now rewrite H. Qed.

(** ** The claims on construction and on errors *)

Lemma default_orders_agree `{Unicode} c :
  firstMatch [wordRule; numberRule; spaceRule; punctuationRule; symbolRule] c
  = firstMatch [wordRule; spaceRule; punctuationRule; numberRule; symbolRule] c.
Proof.
  unfold firstMatch, matches. simpl.
  destruct (generalCategory c); reflexivity.
Qed.

(** C6, as stated, fails: an empty rule list is not replaced by the
    defaults.  On the text [a] a tokenizer built from the empty list returns
    nothing, one built without argument returns a [word]. *)
Lemma empty_rule_list_counterexample :
  fst (Readme.Tokenizer.tokenize (JsStr (js "a"))
         (@Readme.Tokenizer.new basicLatin (Some [])))
  <> fst (Readme.Tokenizer.tokenize (JsStr (js "a"))
            (@Readme.Tokenizer.new basicLatin None))
  /\ Readme.Tokenizer.r (@Readme.Tokenizer.new basicLatin (Some [])) = []
  /\ List.length
       (Readme.Tokenizer.r (@Readme.Tokenizer.new basicLatin None)) = 5
  /\ fst (Readme.Tokenizer.tokenize (JsStr (js "a"))
            (@Readme.Tokenizer.new basicLatin (Some [])))
     = inr []
  /\ fst (Readme.Tokenizer.tokenize (JsStr (js "a"))
            (@Readme.Tokenizer.new basicLatin None))
     = inr [Token.new 0 "word" (js "a") (0, 1)]
  /\ @Index.Tokenizer.new basicLatin (Some []) = inr (Index.Tokenizer.mk [])
  /\ tokens [] (js "a") = []
  /\ tokens [@wordRule basicLatin; @numberRule basicLatin;
             @spaceRule basicLatin; @punctuationRule basicLatin;
             @symbolRule basicLatin] (js "a")
     = [Token.new 0 "word" (js "a") (0, 1)].
Proof.
  repeat split; try reflexivity.
  intros H. discriminate H.
Qed.

(** C6, amended.  Without argument the constructor installs the five
    default rules: [word] (group, Letter), [space] (single, Separator),
    [punctuation] (single, Punctuation), [number] (group, Number) and
    [symbol] (group, Symbol), in this order in the listing of the manual;
    [index.ts] has [number] in second place, and the two orders tokenize
    alike.  With the empty list the constructor installs no rule at all,
    and [tokenize] then returns no token whatever the input. *)
Theorem default_rules_only_when_omitted `{Unicode} :
  Readme.Tokenizer.new None
  = Readme.Tokenizer.mk [baked wordRule; baked spaceRule;
                         baked punctuationRule; baked numberRule;
                         baked symbolRule]
  /\ Index.Tokenizer.new None
     = inr (Index.Tokenizer.mk [wordRule; numberRule; spaceRule;
                                punctuationRule; symbolRule])
  /\ (forall text,
         tokens [wordRule; numberRule; spaceRule; punctuationRule; symbolRule]
                text
         = tokens [wordRule; spaceRule; punctuationRule; numberRule;
                   symbolRule] text)
  /\ Readme.Tokenizer.new (Some []) = Readme.Tokenizer.mk []
  /\ Index.Tokenizer.new (Some []) = inr (Index.Tokenizer.mk [])
  /\ (forall text,
         Readme.Tokenizer.tokenize text (Readme.Tokenizer.mk [])
         = (inr [], Readme.Tokenizer.mk []))
  /\ (forall text,
         Index.Tokenizer.tokenize text (Index.Tokenizer.mk [])
         = ([], Index.Tokenizer.mk [])).
Proof.
  assert (Hindex : forall text,
             Index.Tokenizer.tokenize text (Index.Tokenizer.mk [])
             = ([], Index.Tokenizer.mk [])).
  { intros text. destruct (isString text) eqn:Hs.
    - pose proof (tokenize_frame (Index.Tokenizer.mk []) text) as Hframe.
      assert (Hfst : fst (Index.Tokenizer.tokenize text (Index.Tokenizer.mk []))
                     = []).
      { destruct text; try discriminate Hs; apply (tokens_no_rules s). }
      destruct (Index.Tokenizer.tokenize text (Index.Tokenizer.mk [])).
      simpl in *. congruence.
    - now apply tokenize_not_a_string. }
  repeat split; try reflexivity.
  - intros text. apply tokens_firstMatch_ext. intros c.
    apply default_orders_agree.
  - intros text. rewrite readme_tokenize_as_index by constructor.
    simpl. now rewrite Hindex.
  - exact Hindex.
Qed.

(** C7.  [tokenize] does not throw.  On an input that is not a string it
    returns the empty sequence, and so it does on the empty string.  In the
    listing of the manual, where reading a rule could throw, this holds of
    every object that the constructor, [update] and [tokenize] can
    produce. *)
Theorem tokenize_never_throws `{Unicode} :
  (forall this text,
      isString text = false ->
      Index.Tokenizer.tokenize text this = ([], this))
  /\ (forall this,
         Index.Tokenizer.tokenize (JsStr []) this = ([], this)
         /\ Index.Tokenizer.tokenize (JsStringObject []) this = ([], this))
  /\ (forall this text,
         Reachable this ->
         exists toks,
           Readme.Tokenizer.tokenize text this = (inr toks, this)
           /\ (isString text = false -> toks = [])
           /\ (units text = [] -> toks = [])).
Proof.
  split; [exact tokenize_not_a_string|]. split; [now split|].
  intros this text Hr. apply reachable_noNull in Hr.
  rewrite (readme_tokenize_as_index _ _ Hr).
  eexists. split; [reflexivity|]. split.
  - intros Hs. now rewrite tokenize_not_a_string.
  - intros Hu. unfold Index.Tokenizer.tokenize.
    destruct (negb (isString text)); [reflexivity|]. now rewrite Hu.
Qed.

Lemma tokenize_never_throws_witness :
  Index.Tokenizer.tokenize (JsNumber 42) (Index.Tokenizer.mk [periodRule])
  = ([], Index.Tokenizer.mk [periodRule])
  /\ exists toks,
       Readme.Tokenizer.tokenize JsNull (@Readme.Tokenizer.new basicLatin None)
       = (inr toks, @Readme.Tokenizer.new basicLatin None)
       /\ (isString JsNull = false -> toks = [])
       /\ (units JsNull = [] -> toks = []).
Proof.
  split.
  - apply (proj1 (@tokenize_never_throws basicLatin)). reflexivity.
  - apply (proj2 (proj2 (@tokenize_never_throws basicLatin))).
    apply Reachable_new.
Defined.

(** C8, as stated, fails: a rule whose type is the empty string is neither
    rejected nor skipped.  [ruleMono] bakes it, the constructor keeps it, and
    the tokens it yields carry the empty type. *)
Lemma empty_type_counterexample :
  @Readme.Tokenizer.ruleMono basicLatin
     [(EmptyString, PString TokenizeLetter.ALL)]
  = Some (Readme.TokenizerBakedRule.mk
            (@inMajorClass basicLatin "L") EmptyString false)
  /\ Readme.Tokenizer.r
       (@Readme.Tokenizer.new basicLatin
          (Some [@Readme.Tokenizer.ruleMono basicLatin
                   [(EmptyString, PString TokenizeLetter.ALL)]]))
     = [@Readme.Tokenizer.ruleMono basicLatin
          [(EmptyString, PString TokenizeLetter.ALL)]]
  /\ fst (Readme.Tokenizer.tokenize (JsStr (js "a"))
            (@Readme.Tokenizer.new basicLatin
               (Some [@Readme.Tokenizer.ruleMono basicLatin
                        [(EmptyString, PString TokenizeLetter.ALL)]])))
     = inr [Token.new 0 EmptyString (js "a") (0, 1)].
Proof. repeat split. Qed.

(** C8, amended.  Baking a rule from an instruction without a type key, or
    whose pattern is missing ([undefined], [null] or the empty string),
    throws inside the constructor, and [ruleMono] and [ruleMulti] turn that
    into [null].  The constructor of the tokenizer and [update] keep the
    rule objects they are given, in order, and leave the [null]s out, so
    no object they produce holds a [null] and [tokenize] never throws on
    it.  A type that is the empty string is a type: with a pattern that
    compiles, the rule is baked under it. *)
Theorem invalid_rules_are_left_out `{Unicode} :
  (forall captureMulti,
      Readme.TokenizerBakedRule.new [] captureMulti
      = inl (Error "Omitting the rule that has no type"))
  /\ (forall type pattern rest captureMulti,
         falsy pattern = true ->
         Readme.TokenizerBakedRule.new ((type, pattern) :: rest) captureMulti
         = inl (Error "Omitting the rule that has no value"))
  /\ Readme.Tokenizer.ruleMono [] = None
  /\ Readme.Tokenizer.ruleMulti [] = None
  /\ (forall type pattern rest,
         falsy pattern = true ->
         Readme.Tokenizer.ruleMono ((type, pattern) :: rest) = None
         /\ Readme.Tokenizer.ruleMulti ((type, pattern) :: rest) = None)
  /\ (forall rules,
         Readme.Tokenizer.r (Readme.Tokenizer.new (Some rules))
         = map Some (ruleObjects rules))
  /\ (forall rules this,
         Readme.Tokenizer.r (snd (Readme.Tokenizer.update rules this))
         = map Some (ruleObjects rules))
  /\ (forall this text,
         Reachable this ->
         noNull this
         /\ exists toks, Readme.Tokenizer.tokenize text this = (inr toks, this))
  /\ (forall pattern re,
         falsy pattern = false ->
         Readme.TokenizerBakedRule.toRegex pattern = inr re ->
         Readme.Tokenizer.ruleMono [(EmptyString, pattern)]
         = Some (Readme.TokenizerBakedRule.mk re EmptyString false)
         /\ Readme.Tokenizer.ruleMulti [(EmptyString, pattern)]
            = Some (Readme.TokenizerBakedRule.mk re EmptyString true)).
Proof.
  assert (Hnew : forall type pattern rest captureMulti,
             falsy pattern = true ->
             Readme.TokenizerBakedRule.new ((type, pattern) :: rest)
               captureMulti
             = inl (Error "Omitting the rule that has no value")).
  { intros type pattern rest captureMulti Hf.
    unfold Readme.TokenizerBakedRule.new. simpl.
    now rewrite String.eqb_refl, Hf. }
  assert (Hfilter : forall A (l : list (option A)) (f : option A -> bool),
             (forall x,
                 f x = match x with Some _ => true | None => false end) ->
             filter f l = map Some (ruleObjects l)).
  { intros A l f Hf. induction l as [|[x|] l IH]; simpl;
      [reflexivity | rewrite Hf, IH; reflexivity | rewrite Hf; exact IH]. }
  split; [reflexivity|]. split; [exact Hnew|].
  split; [reflexivity|]. split; [reflexivity|]. split.
  { intros type pattern rest Hf.
    unfold Readme.Tokenizer.ruleMono, Readme.Tokenizer.ruleMulti.
    now rewrite !Hnew. }
  split. { intros rules. apply Hfilter. now intros [x|]. }
  split. { intros rules this. apply Hfilter. now intros [x|]. }
  split.
  { intros this text Hr. pose proof (reachable_noNull _ Hr) as Hnn.
    split; [exact Hnn|].
    rewrite (readme_tokenize_as_index _ _ Hnn). eauto. }
  intros pattern re Hf Hre.
  unfold Readme.Tokenizer.ruleMono, Readme.Tokenizer.ruleMulti,
    Readme.TokenizerBakedRule.new.
  simpl. now rewrite Hf, Hre.
Qed.

Lemma invalid_rules_are_left_out_witness :
  @Readme.Tokenizer.ruleMono basicLatin [("word", PUndefined)] = None
  /\ (exists toks,
         Readme.Tokenizer.tokenize (JsStr (js "a b"))
           (@Readme.Tokenizer.new basicLatin
              (Some [None; baked (@wordRule basicLatin)]))
         = (inr toks,
            @Readme.Tokenizer.new basicLatin
              (Some [None; baked (@wordRule basicLatin)])))
  /\ @Readme.Tokenizer.ruleMulti basicLatin
        [(EmptyString, PString TokenizeNumber.ALL)]
     = Some (Readme.TokenizerBakedRule.mk
               (@inMajorClass basicLatin "N") EmptyString true).
Proof.
  pose proof (@invalid_rules_are_left_out basicLatin)
    as (_ & _ & _ & _ & Hfalsy & _ & _ & Hreach & Hempty).
  split; [|split].
  - apply (Hfalsy "word" PUndefined []). reflexivity.
  - apply (Hreach _ (JsStr (js "a b"))). apply Reachable_new.
  - apply (Hempty (PString TokenizeNumber.ALL)); reflexivity.
Defined.

(** ** Further properties of the scan *)

Lemma firstMatch_app_cases l1 l2 c :
  firstMatch (l1 ++ l2) c
  = match firstMatch l1 c with
    | Some rule => Some rule
    | None => firstMatch l2 c
    end.
Proof.
  unfold firstMatch. induction l1 as [|r l1 IH]; simpl; [reflexivity|].
  destruct (matches c r); [reflexivity | exact IH].
Qed.

Lemma firstMatch_same_set rules rules' c :
  (forall r, In r rules <-> In r rules') ->
  disjointRules rules ->
  firstMatch rules c = firstMatch rules' c.
Proof.
  intros Hset Hdis.
  destruct (firstMatch rules c) as [r|] eqn:Hf;
    destruct (firstMatch rules' c) as [r'|] eqn:Hf'; try reflexivity.
  - apply firstMatch_matches in Hf, Hf'.
    destruct Hf as [Hin Hm], Hf' as [Hin' Hm'].
    f_equal. apply (Hdis c); try assumption. now apply Hset.
  - apply firstMatch_matches in Hf. destruct Hf as [Hin Hm].
    unfold firstMatch in Hf'.
    rewrite (find_none _ _ Hf' r (proj1 (Hset r) Hin)) in Hm. discriminate.
  - apply firstMatch_matches in Hf'. destruct Hf' as [Hin' Hm'].
    unfold firstMatch in Hf.
    rewrite (find_none _ _ Hf r' (proj2 (Hset r') Hin')) in Hm'.
    discriminate.
Qed.

(** X1.  Rule order matters only where predicates overlap: when no unit is
    accepted by two different rules, two tokenizers updated with rule lists
    that hold the same rules, in any order and with any repetition, return
    the same tokens.  This is what test [Sanity Two] relies on. *)
Theorem disjoint_rules_in_any_order rules rules' this this' text :
  (forall r, In r rules <-> In r rules') ->
  disjointRules rules ->
  fst (Index.Tokenizer.tokenize (JsStr text)
         (snd (Index.Tokenizer.update rules this)))
  = fst (Index.Tokenizer.tokenize (JsStr text)
           (snd (Index.Tokenizer.update rules' this'))).
Proof.
  intros Hset Hdis.
  apply (tokens_firstMatch_ext rules rules' text).
  intros c. now apply firstMatch_same_set.
Qed.

Lemma periodRule_lettersRule_disjoint : disjointRules [periodRule; lettersRule].
Proof.
  intros c r1 r2 H1 H2 M1 M2.
  assert (Hno : matches c periodRule = true ->
                matches c lettersRule = true -> False).
  { unfold matches, periodRule, lettersRule. simpl. intros Hp Hl.
    apply N.eqb_eq in Hp. subst c. discriminate Hl. }
  simpl in H1, H2.
  destruct H1 as [<-|[<-|[]]], H2 as [<-|[<-|[]]];
    try reflexivity; exfalso; auto.
Qed.

Lemma disjoint_rules_in_any_order_witness :
  fst (Index.Tokenizer.tokenize (JsStr (js "ab.c"))
         (snd (Index.Tokenizer.update [periodRule; lettersRule]
                 (Index.Tokenizer.mk []))))
  = fst (Index.Tokenizer.tokenize (JsStr (js "ab.c"))
           (snd (Index.Tokenizer.update [lettersRule; periodRule; lettersRule]
                   (Index.Tokenizer.mk [periodRule])))).
Proof.
  apply disjoint_rules_in_any_order.
  - intros r. simpl. tauto.
  - exact periodRule_lettersRule_disjoint.
Defined.

Lemma defaultRules_anyMatch `{Unicode} c :
  anyMatch defaultRules c = negb (isMarkOrOther c).
Proof.
  unfold anyMatch, matches, isMarkOrOther. simpl.
  destruct (generalCategory c); reflexivity.
Qed.

(** X2.  Under the default rules the units that are passed over are exactly
    those of the major classes Mark and Other (control characters such as
    the line feed among them): a tokenizer built without argument returns
    tokens whose values, concatenated, are the input without these units.
    The order of [index.ts] gives the same tokens. *)
Theorem default_rules_drop_marks_and_others `{Unicode} text :
  Readme.Tokenizer.tokenize (JsStr text) (Readme.Tokenizer.new None)
  = (inr (tokens defaultRules text), Readme.Tokenizer.new None)
  /\ (exists this,
         Index.Tokenizer.new None = inr this
         /\ fst (Index.Tokenizer.tokenize (JsStr text) this)
            = tokens defaultRules text)
  /\ List.concat (map Token.value (tokens defaultRules text))
     = filter (fun c => negb (isMarkOrOther c)) text
  /\ (forall k c,
         nth_error text k = Some c ->
         covered (tokens defaultRules text) k <-> isMarkOrOther c = false).
Proof.
  split; [|split; [|split]].
  - rewrite (readme_reachable_tokens _ _ (Reachable_new None)). reflexivity.
  - eexists. split; [reflexivity|].
    apply (tokens_firstMatch_ext
             [wordRule; numberRule; spaceRule; punctuationRule; symbolRule]
             defaultRules text).
    apply default_orders_agree.
  - rewrite tokens_values. apply filter_ext. apply defaultRules_anyMatch.
  - intros k c Hc. rewrite (tokens_covered _ _ _ _ Hc), defaultRules_anyMatch.
    destruct (isMarkOrOther c); simpl; split; congruence.
Qed.

Lemma default_rules_drop_marks_and_others_witness :
  covered (tokens (@defaultRules basicLatin) [97; 10; 98]%N) 1
  <-> @isMarkOrOther basicLatin 10%N = false.
Proof.
  apply (proj2 (proj2 (proj2 (@default_rules_drop_marks_and_others
                                basicLatin [97; 10; 98]%N))) 1 10%N).
  reflexivity.
Defined.

Lemma takeWhile_id {A} (p : A -> bool) l :
  Forall (fun x => p x = true) l -> takeWhile p l = l.
Proof.
  induction 1 as [|x l Hx _ IH]; simpl; [reflexivity|].
  now rewrite Hx, IH.
Qed.

Lemma takeWhile_app_stop {A} (p : A -> bool) l x rest :
  p x = false -> takeWhile p (l ++ x :: rest) = takeWhile p l.
Proof.
  intros Hx. induction l as [|y l IH]; simpl.
  - now rewrite Hx.
  - destruct (p y); [now rewrite IH | reflexivity].
Qed.

(** The tokens of a text that one rule captures whole, from its first
    unit on. *)
Lemma tokens_one_capture rules text c rule :
  nth_error text 0 = Some c ->
  firstMatch rules c = Some rule ->
  captured rule text 0 = text ->
  tokens rules text
  = [Token.new 0 (Index.Rule.type rule) text (0, List.length text)].
Proof.
  intros Hc Hf Hcap.
  destruct text as [|x rest]; [discriminate|].
  unfold tokens, Index.Tokenizer.tokenize. simpl negb. cbv iota.
  change (fst (scan rules (x :: rest) (S (List.length rest)) 0 [])
          = [Token.new 0 (Index.Rule.type rule) (x :: rest)
               (0, List.length (x :: rest))]).
  rewrite (forLoop_turn _ _ _ _ _ _ Hc), Hf.
  unfold tokenAt. rewrite Hcap.
  now rewrite forLoop_done by (simpl; lia).
Qed.

(** X3.  Tokenizing the value of a token again, under the same rules,
    gives that one token back, at index 0 and with the span of the whole
    value: a token is never split or regrouped by a second pass. *)
Theorem token_value_tokenizes_to_itself rules text :
  Forall (fun tok =>
            tokens rules (Token.value tok)
            = [Token.new 0 (Token.type tok) (Token.value tok)
                 (0, List.length (Token.value tok))])
         (tokens rules text).
Proof.
  eapply Forall_impl; [|apply tokens_emitted].
  intros tok (c & rule & Hc & Hf & Htok).
  destruct (firstMatch_matches _ _ _ Hf) as [_ Hm].
  pose proof (captured_cons _ _ _ _ Hc Hm) as Hcons.
  pose proof (captured_all _ _ _ _ Hc Hm) as Hall.
  assert (Hv : Token.value tok = captured rule text (start tok))
    by (rewrite Htok at 1; reflexivity).
  assert (Ht : Token.type tok = Index.Rule.type rule)
    by (rewrite Htok at 1; reflexivity).
  rewrite Hv, Ht.
  apply tokens_one_capture with c; [now rewrite Hcons | exact Hf |].
  unfold captured at 1.
  destruct (Index.Rule.shouldCaptureGroup rule) eqn:Hg.
  - simpl. apply takeWhile_id. exact Hall.
  - rewrite Hcons. reflexivity.
Qed.

(** X5.  A group rule never yields two tokens that touch: when a token
    produced by a group rule ends where the next token starts, the first
    unit of that next token is one the rule refuses. *)
Theorem group_tokens_do_not_touch rules text i a b ca rule cb :
  nth_error (tokens rules text) i = Some a ->
  nth_error (tokens rules text) (S i) = Some b ->
  end_ a = start b ->
  nth_error text (start a) = Some ca ->
  firstMatch rules ca = Some rule ->
  Index.Rule.shouldCaptureGroup rule = true ->
  nth_error text (start b) = Some cb ->
  matches cb rule = false.
Proof.
  intros Ha Hb Hmeet Hca Hf Hg Hcb.
  pose proof (tokens_emitted rules text) as Hall.
  rewrite Forall_forall in Hall.
  destruct (Hall a (nth_error_In _ _ Ha)) as (c & rule' & Hc & Hf' & Htok).
  assert (c = ca) by congruence. subst c.
  assert (rule' = rule) by congruence. subst rule'.
  assert (He : end_ a
               = start a
                 + List.length (takeWhile (test (Index.Rule.regex rule))
                                          (skipn (start a) text))).
  { rewrite Htok at 1. unfold end_, tokenAt, captured. simpl.
    now rewrite Hg. }
  rewrite <- Hmeet, He, <- nth_error_skipn in Hcb.
  exact (takeWhile_stop _ _ _ Hcb).
Qed.

Lemma group_tokens_do_not_touch_witness :
  matches 46%N lettersRule = false.
Proof.
  apply (group_tokens_do_not_touch [lettersRule; periodRule] (js "ab.c") 0
           (Token.new 0 "letters" (js "ab") (0, 2))
           (Token.new 1 "period" (js ".") (2, 3))
           97%N lettersRule 46%N);
    reflexivity.
Defined.

(** X6.  A rule that earlier rules shadow is dead: when every unit it
    accepts is accepted by some rule before it in the list, taking it out
    of the list changes no token. *)
Theorem shadowed_rule_is_dead pre rule post text :
  (forall c, matches c rule = true -> anyMatch pre c = true) ->
  tokens (pre ++ rule :: post) text = tokens (pre ++ post) text.
Proof.
  intros Hshadow. apply tokens_firstMatch_ext. intros c.
  rewrite !firstMatch_app_cases.
  destruct (firstMatch pre c) as [r|] eqn:Hpre; [reflexivity|].
  apply firstMatch_none in Hpre.
  unfold firstMatch. simpl. fold (matches c rule).
  destruct (matches c rule) eqn:Hm; [|reflexivity].
  rewrite (Hshadow c Hm) in Hpre. discriminate.
Qed.

Lemma shadowed_rule_is_dead_witness :
  tokens ([lettersRule] ++ Index.Rule.mk {| test := fun c => N.eqb c 97 |}
                             "a" false :: [periodRule]) (js "ab.a")
  = tokens ([lettersRule] ++ [periodRule]) (js "ab.a").
Proof.
  apply shadowed_rule_is_dead.
  intros c Hc. unfold matches in Hc. simpl in Hc.
  apply N.eqb_eq in Hc. subst c. reflexivity.
Defined.

(** X12.  Every token is homogeneous under a rule of the list: some rule
    of the list has the type the token carries and accepts every unit of
    its value. *)
Theorem token_units_accepted_by_its_rule rules text :
  Forall (fun tok =>
            exists rule,
              In rule rules /\
              Token.type tok = Index.Rule.type rule /\
              Forall (fun x => matches x rule = true) (Token.value tok))
         (tokens rules text).
Proof.
  eapply Forall_impl; [|apply tokens_emitted].
  intros tok (c & rule & Hc & Hf & Htok).
  destruct (firstMatch_matches _ _ _ Hf) as [Hin Hm].
  exists rule. split; [exact Hin|].
  split; [rewrite Htok at 1; reflexivity|].
  rewrite Htok at 1. simpl. now apply captured_all with c.
Qed.

Lemma length_concat_ge {A} (ls : list (list A)) :
  Forall (fun l => 1 <= List.length l) ls ->
  List.length ls <= List.length (List.concat ls).
Proof.
  induction 1 as [|l ls Hl _ IH]; simpl; [lia|].
  rewrite length_app. lia.
Qed.

(** X9.  There are at most as many tokens as units that some rule accepts,
    hence at most as many as units in the input; and when no rule of the
    list is a group rule, there is exactly one token per accepted unit,
    holding that unit alone. *)
Theorem token_count_bounds rules text :
  List.length (tokens rules text)
  <= List.length (filter (anyMatch rules) text)
  /\ List.length (filter (anyMatch rules) text) <= List.length text
  /\ (forallb (fun r => negb (Index.Rule.shouldCaptureGroup r)) rules = true ->
      map Token.value (tokens rules text)
      = map (fun c => [c]) (filter (anyMatch rules) text)).
Proof.
  split; [|split].
  - rewrite <- tokens_values, <- (length_map Token.value).
    apply length_concat_ge. apply Forall_map.
    eapply Forall_impl; [|apply tokens_emitted].
    intros tok Hem. destruct (emitted_span _ _ _ Hem) as (H1 & _ & _ & H4).
    lia.
  - apply filter_length_le.
  - intros Hmono. rewrite forallb_forall in Hmono.
    rewrite <- (firstn_all text) at 2.
    apply (tokens_invariant rules text
             (fun cursor toks =>
                map Token.value toks
                = map (fun c => [c])
                      (filter (anyMatch rules) (firstn cursor text)))).
    + intros cursor toks c Hc Hf HI.
      apply firstMatch_none in Hf.
      rewrite <- Nat.add_1_r, firstn_plus, filter_app, map_app, <- HI.
      rewrite (nth_error_skipn_cons _ _ _ Hc). simpl.
      now rewrite Hf, app_nil_r.
    + intros cursor toks c rule Hc Hf HI.
      destruct (firstMatch_matches _ _ _ Hf) as [Hin Hm].
      pose proof (Hmono rule Hin) as Hg. apply negb_true_iff in Hg.
      assert (Hcap : captured rule text cursor = [c]).
      { rewrite (captured_cons _ _ _ _ Hc Hm). now rewrite Hg. }
      assert (Hany : anyMatch rules c = true).
      { apply existsb_exists. now exists rule. }
      rewrite Hcap. simpl List.length.
      rewrite firstn_plus, filter_app, !map_app, <- HI.
      rewrite (nth_error_skipn_cons _ _ _ Hc). simpl.
      rewrite Hany. unfold tokenAt. now rewrite Hcap.
    + reflexivity.
Qed.

Lemma token_count_bounds_witness :
  map Token.value (tokens [periodRule] (js "a.b."))
  = map (fun c => [c]) (filter (anyMatch [periodRule]) (js "a.b.")).
Proof.
  apply (proj2 (proj2 (token_count_bounds [periodRule] (js "a.b.")))).
  reflexivity.
Defined.

(** ** Cutting a text at a unit that is passed over *)

Lemma captured_before_stop rules rule pre c post k x :
  anyMatch rules c = false ->
  In rule rules ->
  nth_error pre k = Some x ->
  captured rule (pre ++ c :: post) k = captured rule pre k.
Proof.
  intros Hc Hin Hx.
  assert (Hk : k < List.length pre) by (apply nth_error_Some; congruence).
  assert (Hr : test (Index.Rule.regex rule) c = false).
  { unfold anyMatch in Hc.
    destruct (matches c rule) eqn:Hm; [|exact Hm].
    assert (existsb (matches c) rules = true)
      by (apply existsb_exists; now exists rule).
    congruence. }
  unfold captured. rewrite skipn_app.
  replace (k - List.length pre) with 0 by lia. simpl skipn.
  destruct (Index.Rule.shouldCaptureGroup rule).
  - now apply takeWhile_app_stop.
  - rewrite (nth_error_skipn_cons _ _ _ Hx). reflexivity.
Qed.

Lemma captured_after_prefix rule pre suf k :
  captured rule (pre ++ suf) (List.length pre + k) = captured rule suf k.
Proof.
  unfold captured. rewrite skipn_app.
  replace (List.length pre + k - List.length pre) with k by lia.
  now rewrite skipn_all2 by lia.
Qed.

Lemma tokenAt_after_prefix rule pre suf k count index :
  tokenAt rule (pre ++ suf) (List.length pre + k) (count + index)
  = shift (List.length pre) count (tokenAt rule suf k index).
Proof.
  unfold tokenAt, shift, start, end_. rewrite captured_after_prefix. simpl.
  now rewrite Nat.add_assoc.
Qed.

Section Cut.
Variable rules : list Index.Rule.Rule.
Variable pre post : JsString.
Variable c : CodeUnit.
Hypothesis c_dropped : anyMatch rules c = false.

(** Up to the cut, the scan of the whole text is the scan of [pre]. *)
Lemma scan_before_cut :
  forall fuel k toks,
    List.length pre - k <= fuel ->
    k <= List.length pre ->
    fst (scan rules (pre ++ c :: post)
           (List.length (pre ++ c :: post) - k) k toks)
    = fst (scan rules (pre ++ c :: post)
             (List.length (pre ++ c :: post) - List.length pre)
             (List.length pre)
             (fst (scan rules pre fuel k toks))).
Proof.
  induction fuel as [|fuel IH]; intros k toks Hfuel Hk.
  - rewrite (forLoop_done rules pre) by lia. simpl.
    now replace k with (List.length pre) by lia.
  - destruct (nth_error pre k) as [x|] eqn:Hx.
    + assert (Hlt : k < List.length pre)
        by (apply nth_error_Some; congruence).
      assert (Hx' : nth_error (pre ++ c :: post) k = Some x)
        by (now rewrite nth_error_app1).
      rewrite length_app in *. simpl List.length in *.
      replace (List.length pre + S (List.length post) - k)
        with (S (List.length pre + S (List.length post) - S k)) by lia.
      rewrite (forLoop_turn _ _ _ _ _ _ Hx'), (forLoop_turn _ _ _ _ _ _ Hx).
      destruct (firstMatch rules x) as [rule|] eqn:Hf.
      * destruct (firstMatch_matches _ _ _ Hf) as [Hin Hm].
        rewrite (captured_before_stop _ _ _ _ _ _ _ c_dropped Hin Hx).
        pose proof (captured_length_pos _ _ _ _ Hx Hm) as Hpos.
        pose proof (captured_bound rule pre k) as Hb.
        set (n := List.length (captured rule pre k)) in *.
        unfold tokenAt.
        rewrite (captured_before_stop _ _ _ _ _ _ _ c_dropped Hin Hx).
        fold n. fold (tokenAt rule pre k (List.length toks)).
        rewrite <- (IH (k + n)) by lia.
        apply f_equal. apply (forLoop_fuel rules); rewrite length_app;
          simpl; lia.
      * rewrite <- (IH (S k)) by lia. reflexivity.
    + apply nth_error_None in Hx.
      rewrite (forLoop_done rules pre) by lia. simpl.
      now replace k with (List.length pre) by lia.
Qed.

(** From the cut on, the scan of the whole text is the scan of [post],
    shifted. *)
Lemma scan_after_cut :
  forall fuel k toks acc,
    fst (scan rules ((pre ++ [c]) ++ post) fuel
           (List.length (pre ++ [c]) + k)
           (toks ++ map (shift (List.length (pre ++ [c]))
                               (List.length toks)) acc))
    = toks ++ map (shift (List.length (pre ++ [c])) (List.length toks))
                  (fst (scan rules post fuel k acc)).
Proof.
  induction fuel as [|fuel IH]; intros k toks acc; [reflexivity|].
  destruct (nth_error post k) as [x|] eqn:Hx.
  - assert (Hx' : nth_error ((pre ++ [c]) ++ post)
                            (List.length (pre ++ [c]) + k) = Some x).
    { rewrite nth_error_app2 by lia.
      now replace (List.length (pre ++ [c]) + k - List.length (pre ++ [c]))
        with k by lia. }
    rewrite (forLoop_turn _ _ _ _ _ _ Hx'), (forLoop_turn _ _ _ _ _ _ Hx).
    destruct (firstMatch rules x) as [rule|].
    + rewrite captured_after_prefix.
      rewrite (length_app toks), length_map, tokenAt_after_prefix.
      rewrite <- (IH (k + List.length (captured rule post k)) toks
                     (acc ++ [tokenAt rule post k (List.length acc)])).
      rewrite map_app, app_assoc, Nat.add_assoc. reflexivity.
    + rewrite <- (IH (S k)). now rewrite Nat.add_succ_r.
  - apply nth_error_None in Hx.
    rewrite (forLoop_done rules post) by lia.
    rewrite forLoop_done; [reflexivity|].
    rewrite length_app. lia.
Qed.

Lemma tokens_cut :
  tokens rules (pre ++ c :: post)
  = tokens rules pre
    ++ map (shift (S (List.length pre)) (List.length (tokens rules pre)))
           (tokens rules post).
Proof.
  assert (Hc : nth_error (pre ++ c :: post) (List.length pre) = Some c).
  { rewrite nth_error_app2 by lia. now rewrite Nat.sub_diag. }
  unfold tokens at 1, Index.Tokenizer.tokenize. simpl negb. cbv iota.
  change (fst (scan rules (pre ++ c :: post)
                 (List.length (pre ++ c :: post)) 0 [])
          = tokens rules pre
            ++ map (shift (S (List.length pre))
                          (List.length (tokens rules pre)))
                   (tokens rules post)).
  rewrite <- (Nat.sub_0_r (List.length (pre ++ c :: post))) at 1.
  rewrite (scan_before_cut (List.length pre) 0 []) by lia.
  change (fst (scan rules pre (List.length pre) 0 []))
    with (tokens rules pre).
  replace (List.length (pre ++ c :: post) - List.length pre)
    with (S (List.length post)) by (rewrite length_app; simpl; lia).
  rewrite (forLoop_turn _ _ _ _ _ _ Hc).
  rewrite (proj2 (firstMatch_none rules c) c_dropped).
  pose proof (scan_after_cut (List.length post) 0 (tokens rules pre) [])
    as Hcut.
  rewrite <- app_assoc in Hcut. simpl app in Hcut.
  rewrite length_app in Hcut. simpl List.length in Hcut.
  rewrite !Nat.add_1_r, Nat.add_0_r, app_nil_r in Hcut.
  exact Hcut.
Qed.
End Cut.

(** X4.  A unit that no rule accepts cuts the text in two independent
    parts: the tokens of [pre ++ c :: post] are the tokens of [pre],
    followed by the tokens of [post] with their spans moved past the cut
    and their indices continued. *)
Theorem text_splits_at_dropped_unit rules pre c post :
  anyMatch rules c = false ->
  tokens rules (pre ++ c :: post)
  = tokens rules pre
    ++ map (shift (S (List.length pre)) (List.length (tokens rules pre)))
           (tokens rules post).
Proof. apply tokens_cut. Qed.

Lemma text_splits_at_dropped_unit_witness :
  tokens [lettersRule; periodRule] (js "ab" ++ 32%N :: js "c.")
  = tokens [lettersRule; periodRule] (js "ab")
    ++ map (shift 3 (List.length (tokens [lettersRule; periodRule] (js "ab"))))
           (tokens [lettersRule; periodRule] (js "c.")).
Proof.
  apply (text_splits_at_dropped_unit [lettersRule; periodRule]
           (js "ab") 32%N (js "c.")).
  reflexivity.
Defined.

(** ** Further properties of the builders and of [update] *)

Lemma propertyEscape_undefined `{Unicode} :
  propertyEscape "undefined" = None /\ propertyEscape "null" = None
  /\ propertyEscape EmptyString = None.
Proof. repeat split. Qed.

(** The constructors of the two rule classes, on the same instruction and
    the same mode: where one throws, so does the other; where one builds a
    rule, the other builds the same. *)
Lemma rule_constructors_agree `{Unicode} instruction mode :
  match Readme.TokenizerBakedRule.new instruction mode with
  | inr b =>
      match Object_keys instruction with
      | type :: _ =>
          Index.Rule.new type (Object_get instruction type) mode
          = inr (unbake b)
          /\ Readme.TokenizerBakedRule.type b = type
      | [] => False
      end
      /\ Readme.TokenizerBakedRule.shouldCaptureMulti b
         = match mode with Some m => m | None => false end
  | inl _ =>
      exists e,
        match Object_keys instruction with
        | type :: _ => Index.Rule.new type (Object_get instruction type) mode
        | [] => Index.Rule.new "undefined" PUndefined mode
        end = inl e
  end.
Proof.
  destruct instruction as [|[type pattern] rest].
  - simpl. eexists. reflexivity.
  - unfold Readme.TokenizerBakedRule.new, Index.Rule.new. simpl.
    rewrite String.eqb_refl.
    destruct pattern as [| |s|re].
    + simpl. eexists. reflexivity.
    + simpl. eexists. reflexivity.
    + destruct s as [|a s]; [simpl; eexists; reflexivity|].
      change (falsy (PString (String a s))) with false.
      unfold Readme.TokenizerBakedRule.toRegex. cbv beta iota.
      destruct (toRegex (PString (String a s))) as [e|re]; cbv beta iota.
      * eexists. reflexivity.
      * repeat split.
    + simpl. repeat split.
Qed.

(** X7.  The rule builders of the two listings accept the same
    instructions: [captureMono] throws exactly where [ruleMono] returns
    [null], and otherwise both build the same rule, a single-capture rule
    whose type is the first key of the instruction; likewise
    [captureGroup] and [ruleMulti], with a group rule. *)
Theorem builders_agree_across_listings `{Unicode} instruction :
  match Readme.Tokenizer.ruleMono instruction with
  | Some b =>
      Index.Tokenizer.captureMono instruction = inr (unbake b)
      /\ hd_error (Object_keys instruction)
         = Some (Readme.TokenizerBakedRule.type b)
      /\ Readme.TokenizerBakedRule.shouldCaptureMulti b = false
  | None => exists e, Index.Tokenizer.captureMono instruction = inl e
  end
  /\ match Readme.Tokenizer.ruleMulti instruction with
     | Some b =>
         Index.Tokenizer.captureGroup instruction = inr (unbake b)
         /\ hd_error (Object_keys instruction)
            = Some (Readme.TokenizerBakedRule.type b)
         /\ Readme.TokenizerBakedRule.shouldCaptureMulti b = true
     | None => exists e, Index.Tokenizer.captureGroup instruction = inl e
     end.
Proof.
  unfold Readme.Tokenizer.ruleMono, Readme.Tokenizer.ruleMulti,
    Index.Tokenizer.captureMono, Index.Tokenizer.captureGroup.
  split.
  - pose proof (rule_constructors_agree instruction None) as Hagree.
    destruct (Readme.TokenizerBakedRule.new instruction None) as [e|b];
      [exact Hagree|].
    destruct (Object_keys instruction) as [|type keys];
      [destruct Hagree as [[] _]|].
    destruct Hagree as [[Hnew Htype] Hmode].
    repeat split; [exact Hnew | simpl; now rewrite Htype | exact Hmode].
  - pose proof (rule_constructors_agree instruction (Some true)) as Hagree.
    destruct (Readme.TokenizerBakedRule.new instruction (Some true))
      as [e|b]; [exact Hagree|].
    destruct (Object_keys instruction) as [|type keys];
      [destruct Hagree as [[] _]|].
    destruct Hagree as [[Hnew Htype] Hmode].
    repeat split; [exact Hnew | simpl; now rewrite Htype | exact Hmode].
Qed.

Lemma tokenize_no_rules text :
  Index.Tokenizer.tokenize text (Index.Tokenizer.mk [])
  = ([], Index.Tokenizer.mk []).
Proof.
  destruct (isString text) eqn:Hs.
  - pose proof (tokenize_frame (Index.Tokenizer.mk []) text) as Hframe.
    assert (Hfst : fst (Index.Tokenizer.tokenize text (Index.Tokenizer.mk []))
                   = []).
    { destruct text; try discriminate Hs; apply (tokens_no_rules s). }
    destruct (Index.Tokenizer.tokenize text (Index.Tokenizer.mk [])).
    simpl in *. congruence.
  - now apply tokenize_not_a_string.
Qed.

Lemma filter_Boolean_ruleObjects rules :
  filter Readme.Tokenizer.Boolean rules = map Some (ruleObjects rules).
Proof.
  induction rules as [|[rule|] rules IH]; simpl;
    [reflexivity | now rewrite IH | exact IH].
Qed.

Lemma ruleObjects_map_Some {A} (l : list A) : ruleObjects (map Some l) = l.
Proof. induction l as [|x l IH]; simpl; [reflexivity | now rewrite IH]. Qed.

(** X8.  [update] replaces the configuration wholesale.  Whatever the
    tokenizer held before, after [update(rules)] it is the tokenizer that
    [new Tokenizer(rules)] builds, so [tokenize] returns the tokens of the
    rule objects of [rules], in their order; of two updates in a row only
    the second counts.  The same holds in [index.ts], where [update] keeps
    the list as it is given. *)
Theorem update_replaces_the_rules `{Unicode} rules text :
  (forall this,
      snd (Readme.Tokenizer.update rules this)
      = Readme.Tokenizer.new (Some rules))
  /\ (forall this,
         Readme.Tokenizer.tokenize text
           (snd (Readme.Tokenizer.update rules this))
         = (inr (fst (Index.Tokenizer.tokenize text
                        (Index.Tokenizer.mk
                           (map unbake (ruleObjects rules))))),
            Readme.Tokenizer.new (Some rules)))
  /\ (forall this rules0,
         snd (Readme.Tokenizer.update rules
                (snd (Readme.Tokenizer.update rules0 this)))
         = snd (Readme.Tokenizer.update rules this))
  /\ (forall this rules0 indexRules,
         Index.Tokenizer.tokenize text
           (snd (Index.Tokenizer.update indexRules
                   (snd (Index.Tokenizer.update rules0 this))))
         = (fst (Index.Tokenizer.tokenize text
                   (Index.Tokenizer.mk indexRules)),
            Index.Tokenizer.mk indexRules)).
Proof.
  split; [reflexivity|]. split; [|split; [reflexivity|]].
  - intros this.
    rewrite readme_tokenize_as_index by apply filter_Boolean_noNull.
    unfold Readme.Tokenizer.new. simpl.
    now rewrite filter_Boolean_ruleObjects, ruleObjects_map_Some.
  - intros this rules0 indexRules. simpl.
    rewrite <- (tokenize_frame (Index.Tokenizer.mk indexRules) text) at 3.
    now destruct (Index.Tokenizer.tokenize text
                    (Index.Tokenizer.mk indexRules)).
Qed.

Lemma captureMono_throws_iff_null `{Unicode} instruction :
  (exists e, Index.Tokenizer.captureMono instruction = inl e)
  <-> Readme.Tokenizer.ruleMono instruction = None.
Proof.
  unfold Readme.Tokenizer.ruleMono, Index.Tokenizer.captureMono.
  pose proof (rule_constructors_agree instruction None) as Hagree.
  destruct (Readme.TokenizerBakedRule.new instruction None) as [e|b].
  - destruct (Object_keys instruction); split; auto.
  - destruct (Object_keys instruction) as [|type keys];
      [destruct Hagree as [[] _]|].
    destruct Hagree as [[Hnew _] _]. rewrite Hnew.
    split; [intros [e He]; discriminate He | discriminate].
Qed.

Lemma ruleMono_truthy `{Unicode} type pattern :
  falsy pattern = false ->
  Readme.Tokenizer.ruleMono [(type, pattern)]
  = match Readme.TokenizerBakedRule.toRegex pattern with
    | inr re => Some (Readme.TokenizerBakedRule.mk re type false)
    | inl _ => None
    end.
Proof.
  intros Hf.
  unfold Readme.Tokenizer.ruleMono, Readme.TokenizerBakedRule.new. simpl.
  rewrite String.eqb_refl, Hf.
  now destruct (Readme.TokenizerBakedRule.toRegex pattern).
Qed.

(** X10.  Of the members of the eight pattern enums one cannot be used:
    [TokenizeLetter.CASED], whose value [L&] is not a property name the
    engine knows.  [ruleMono] returns [null] for it and [captureMono]
    throws; every other member gives a rule. *)
Theorem enum_members_compile_except_cased `{Unicode} type s :
  In s knownRegexPatterns ->
  (Readme.Tokenizer.ruleMono [(type, PString s)] = None
   <-> s = TokenizeLetter.CASED)
  /\ ((exists e, Index.Tokenizer.captureMono [(type, PString s)] = inl e)
      <-> s = TokenizeLetter.CASED).
Proof.
  intros Hin.
  assert (Hmono : Readme.Tokenizer.ruleMono [(type, PString s)] = None
                  <-> s = TokenizeLetter.CASED).
  { unfold knownRegexPatterns in Hin. simpl in Hin.
    repeat (destruct Hin as [<-|Hin];
            [rewrite ruleMono_truthy by reflexivity; simpl;
             split; intros E; (discriminate E || reflexivity)|]).
    destruct Hin. }
  split; [exact Hmono|].
  now rewrite captureMono_throws_iff_null.
Qed.

Lemma enum_members_compile_except_cased_witness :
  @Readme.Tokenizer.ruleMono basicLatin [("x", PString "L&")] = None.
Proof.
  apply (proj1 (@enum_members_compile_except_cased basicLatin "x" "L&"
                  (or_intror (or_intror (or_intror (or_intror
                     (or_introl eq_refl))))))).
  reflexivity.
Defined.

Lemma ruleObjects_all_null {A} (rules : list (option A)) :
  Forall (fun r => r = None) rules -> ruleObjects rules = [].
Proof.
  induction 1 as [|r rules Hr _ IH]; [reflexivity|]. now subst r.
Qed.

(** X11.  A rule list whose entries are all [null] leaves the tokenizer
    without any rule: there is no fallback to the defaults, and [tokenize]
    returns no token whatever the input. *)
Theorem only_null_rules_give_no_tokens `{Unicode} rules text :
  Forall (fun r => r = None) rules ->
  Readme.Tokenizer.new (Some rules) = Readme.Tokenizer.mk []
  /\ Readme.Tokenizer.tokenize text (Readme.Tokenizer.new (Some rules))
     = (inr [], Readme.Tokenizer.mk []).
Proof.
  intros Hnull.
  assert (Hnew : Readme.Tokenizer.new (Some rules) = Readme.Tokenizer.mk []).
  { unfold Readme.Tokenizer.new.
    now rewrite filter_Boolean_ruleObjects, (ruleObjects_all_null _ Hnull). }
  split; [exact Hnew|]. rewrite Hnew.
  rewrite readme_tokenize_as_index by constructor. simpl.
  now rewrite tokenize_no_rules.
Qed.

Lemma only_null_rules_give_no_tokens_witness :
  Readme.Tokenizer.tokenize (JsStr (js "Mary had a little lamb."))
    (@Readme.Tokenizer.new basicLatin
       (Some [@Readme.Tokenizer.ruleMono basicLatin
                [("word", PString TokenizeLetter.CASED)];
              @Readme.Tokenizer.ruleMulti basicLatin []]))
  = (inr [], Readme.Tokenizer.mk []).
Proof.
  apply (@only_null_rules_give_no_tokens basicLatin).
  repeat constructor.
Defined.

Lemma defaultRules_disjoint `{Unicode} : disjointRules defaultRules.
Proof.
  intros c r1 r2 H1 H2 M1 M2.
  unfold defaultRules in H1, H2. simpl in H1, H2.
  unfold matches in M1, M2.
  destruct H1 as [<-|[<-|[<-|[<-|[<-|[]]]]]];
    destruct H2 as [<-|[<-|[<-|[<-|[<-|[]]]]]];
    try reflexivity; exfalso; simpl in M1, M2;
    destruct (generalCategory c); discriminate.
Qed.

(** X13.  The five default rules accept disjoint sets of units, so their
    order is immaterial: a tokenizer given the five rules in any order
    returns what the default tokenizer returns. *)
Theorem default_rules_in_any_order `{Unicode} rules text :
  (forall r, In r defaultRules <-> In r rules) ->
  tokens rules text = tokens defaultRules text
  /\ fst (Readme.Tokenizer.tokenize (JsStr text)
            (Readme.Tokenizer.new (Some (map baked rules))))
     = fst (Readme.Tokenizer.tokenize (JsStr text)
              (Readme.Tokenizer.new None)).
Proof.
  intros Hset.
  assert (Htok : tokens rules text = tokens defaultRules text).
  { symmetry. apply tokens_firstMatch_ext. intros c.
    apply firstMatch_same_set; [exact Hset | apply defaultRules_disjoint]. }
  split; [exact Htok|].
  rewrite !readme_tokenize_as_index by apply filter_Boolean_noNull.
  assert (Hnew : Readme.Tokenizer.new (Some (map baked rules))
                 = Readme.Tokenizer.mk (map baked rules)).
  { unfold Readme.Tokenizer.new. f_equal. clear.
    induction rules as [|r rules IH]; simpl; [reflexivity | now f_equal]. }
  assert (Hobj : map unbake (ruleObjects (map baked rules)) = rules).
  { clear. induction rules as [|[re ty g] rules IH]; simpl;
      [reflexivity | now rewrite IH]. }
  rewrite Hnew. simpl. rewrite Hobj.
  change (fst (Index.Tokenizer.tokenize (JsStr text)
                 (Index.Tokenizer.mk rules)))
    with (tokens rules text).
  rewrite Htok. reflexivity.
Qed.

Lemma default_rules_in_any_order_witness :
  tokens [@symbolRule basicLatin; @numberRule basicLatin;
          @punctuationRule basicLatin; @spaceRule basicLatin;
          @wordRule basicLatin] (js "Mary had 12 lambs.")
  = tokens (@defaultRules basicLatin) (js "Mary had 12 lambs.").
Proof.
  apply (@default_rules_in_any_order basicLatin).
  intros r. unfold defaultRules. simpl. tauto.
Defined.

(** ** [RegExp] objects with [lastIndex] *)

Lemma regex_test_flagless a c heap :
  Live.global (heap a) = false ->
  Live.sticky (heap a) = false ->
  Live.regex_test a c heap = (fst (Live.test (heap a) c), heap).
Proof.
  intros Hg Hy. unfold Live.regex_test, Live.test. rewrite Hg, Hy.
  cbn [orb]. now destruct (Live.search 3 (heap a) [c] 0).
Qed.

(** A character class compiled without flags accepts the units of the
    class, and [test] writes nothing. *)
Lemma compiled_test p c : Live.test (compiled p) c = (test p c, None).
Proof.
  unfold Live.test, compiled. simpl. now destruct (test p c).
Qed.

Section Frozen.
Variable heap : Live.Heap.
Variable text : JsString.
Variable size : nat.

Lemma whileLoop_frozen rule :
  Live.global (heap (Live.regex rule)) = false ->
  Live.sticky (heap (Live.regex rule)) = false ->
  forall fuel value e,
    Live.whileLoop fuel (Live.regex rule) text size value e heap
    = (whileLoop fuel (Index.Rule.regex (frozen heap rule)) text size value e,
       heap).
Proof.
  intros Hg Hy. induction fuel as [|fuel IH]; intros value e; simpl;
    [reflexivity|].
  destruct (e <? size); [|reflexivity].
  destruct (nth_error text e) as [c|]; [|reflexivity].
  rewrite (regex_test_flagless _ _ _ Hg Hy).
  destruct (fst (Live.test (heap (Live.regex rule)) c));
    [apply IH | reflexivity].
Qed.

Lemma forOf_frozen c cursor toks :
  forall rules,
    flagless rules heap ->
    Live.forOf rules text size c cursor toks heap
    = (Index.Tokenizer.forOf (map (frozen heap) rules) text size c cursor toks,
       heap).
Proof.
  induction rules as [|rule rest IH]; intros Hflag; simpl; [reflexivity|].
  destruct (Hflag rule (or_introl eq_refl)) as [Hg Hy].
  rewrite (regex_test_flagless _ _ _ Hg Hy).
  destruct (fst (Live.test (heap (Live.regex rule)) c)).
  - destruct (Live.shouldCaptureGroup rule); [|reflexivity].
    rewrite (whileLoop_frozen rule Hg Hy). simpl.
    now destruct (whileLoop _ _ _ _ _ _).
  - apply IH. intros r Hr. apply Hflag. now right.
Qed.

Lemma forLoop_frozen this :
  flagless (Live.r this) heap ->
  forall fuel cursor toks,
    Live.forLoop fuel text size cursor toks (this, heap)
    = (fst (Index.Tokenizer.forLoop fuel text size cursor toks
              (Index.Tokenizer.mk (map (frozen heap) (Live.r this)))),
       (this, heap)).
Proof.
  intros Hflag. induction fuel as [|fuel IH]; intros cursor toks;
    [reflexivity|].
  simpl. destruct (cursor <? size); [|reflexivity].
  destruct (nth_error text cursor) as [c|]; [|reflexivity].
  unfold Live.bind, Live._rules, Live.onHeap,
    Index.Tokenizer.bind, Index.Tokenizer._rules. simpl.
  rewrite (forOf_frozen c cursor toks _ Hflag).
  destruct (Index.Tokenizer.forOf _ _ _ _ _ _) as [cursor' toks'].
  apply IH.
Qed.
End Frozen.

(** Without global or sticky [RegExp]s, [tokenize] is [tokenize] of module
    [Index] on the rules read as predicates, and nothing is written. *)
Lemma tokenize_without_flags this heap text :
  flagless (Live.r this) heap ->
  Live.tokenize text (this, heap)
  = (fst (Index.Tokenizer.tokenize text
            (Index.Tokenizer.mk (map (frozen heap) (Live.r this)))),
     (this, heap)).
Proof.
  intros Hflag. unfold Live.tokenize, Index.Tokenizer.tokenize.
  destruct (negb (isString text)); [reflexivity|].
  now apply forLoop_frozen.
Qed.

(** Whatever the flags, [tokenize] leaves the rule list itself alone: only
    the store can change. *)
Lemma live_forLoop_keeps_rules text size :
  forall fuel cursor toks this heap,
    fst (snd (Live.forLoop fuel text size cursor toks (this, heap))) = this.
Proof.
  induction fuel as [|fuel IH]; intros cursor toks this heap; [reflexivity|].
  simpl. destruct (cursor <? size); [|reflexivity].
  destruct (nth_error text cursor) as [c|]; [|reflexivity].
  unfold Live.bind, Live._rules, Live.onHeap. simpl.
  destruct (Live.forOf _ _ _ _ _ _ _) as [[cursor' toks'] heap'].
  apply IH.
Qed.

Lemma live_tokenize_keeps_rules text this heap :
  fst (snd (Live.tokenize text (this, heap))) = this.
Proof.
  unfold Live.tokenize. destruct (negb (isString text)); [reflexivity|].
  apply live_forLoop_keeps_rules.
Qed.

(** C10, as stated, fails: with the rule [captureMono({a: /a/g})] two calls
    in a row of [tokenize] on [aaa] return different sequences.  The first
    finds [a] at 0 and at 2 and leaves [lastIndex] at 1; the second
    therefore misses the unit at 0, finds [a] at 1 and misses the unit
    at 2.  The rule list itself is the same after the calls. *)
Lemma global_regex_counterexample :
  fst (Live.tokenize (JsStr (js "aaa")) tokenizer_a_global)
  = [Token.new 0 "a" (js "a") (0, 1); Token.new 1 "a" (js "a") (2, 3)]
  /\ fst (Live.tokenize (JsStr (js "aaa"))
            (snd (Live.tokenize (JsStr (js "aaa")) tokenizer_a_global)))
     = [Token.new 0 "a" (js "a") (1, 2)]
  /\ fst (Live.tokenize (JsStr (js "aaa"))
            (snd (Live.tokenize (JsStr (js "aaa")) tokenizer_a_global)))
     <> fst (Live.tokenize (JsStr (js "aaa")) tokenizer_a_global)
  /\ fst (snd (Live.tokenize (JsStr (js "aaa")) tokenizer_a_global))
     = fst tokenizer_a_global.
Proof.
  repeat split; try reflexivity.
  intros H. discriminate H.
Qed.

(** C10, amended.  [tokenize] never changes the rule list of the object:
    the same rules, in the same order, before and after every call.  When
    no rule holds a global or sticky [RegExp], which is the case of every
    rule built from the predefined patterns, [tokenize] writes nothing at
    all: it returns the tokens of the rules read as predicates on one
    unit, two calls in a row on the same text return equal sequences, and
    a call in between does not alter what a later call returns. *)
Theorem tokenize_repeatable_without_flags this heap text :
  (forall text', fst (snd (Live.tokenize text' (this, heap))) = this)
  /\ (flagless (Live.r this) heap ->
      Live.tokenize text (this, heap)
      = (fst (Index.Tokenizer.tokenize text
                (Index.Tokenizer.mk (map (frozen heap) (Live.r this)))),
         (this, heap))
      /\ fst (Live.tokenize text (snd (Live.tokenize text (this, heap))))
         = fst (Live.tokenize text (this, heap))
      /\ forall text',
           fst (Live.tokenize text (snd (Live.tokenize text' (this, heap))))
           = fst (Live.tokenize text (this, heap))).
Proof.
  split; [intros text'; apply live_tokenize_keeps_rules|].
  intros Hflag. split; [now apply tokenize_without_flags|].
  split.
  - rewrite (tokenize_without_flags _ _ text Hflag). simpl.
    now rewrite (tokenize_without_flags _ _ text Hflag).
  - intros text'. rewrite (tokenize_without_flags _ _ text' Hflag). simpl.
    reflexivity.
Qed.

Lemma tokenize_repeatable_without_flags_witness :
  fst (Live.tokenize (JsStr (js "a.b."))
         (snd (Live.tokenize (JsStr (js "a.b."))
                 (Live.mk [Live.mkRule 0 "period" false],
                  fun _ => compiled (Index.Rule.regex periodRule)))))
  = fst (Live.tokenize (JsStr (js "a.b."))
           (Live.mk [Live.mkRule 0 "period" false],
            fun _ => compiled (Index.Rule.regex periodRule))).
Proof.
  apply (proj2 (tokenize_repeatable_without_flags
                  (Live.mk [Live.mkRule 0 "period" false])
                  (fun _ => compiled (Index.Rule.regex periodRule))
                  (JsStr (js "a.b.")))).
  intros rule Hin. split; reflexivity.
Defined.
